(** * openlane.common.metrics.util: metric names, roll-up aggregation, diff tables

    A shallow embedding of [src/openlane/common/metrics/util.py] and the
    properties of its naming-convention parser, its roll-up aggregator and
    its comparison table.

    Conventions of the embedding:
    - a Python [str] is a [string]; text outside ASCII is held in UTF-8, so
      that ['_'] and [':'] are single characters of the model as they are
      of the program;
    - a Python [dict] is an association list in insertion order with
      pairwise distinct keys ([PyDict]);
    - a Python exception is a [Raise] in the [result] monad. *)

From Stdlib Require Import String Ascii List Bool Arith ZArith Lia Permutation.
From Stdlib Require Import Sorted.
From Stdlib Require OrderedTypeEx.
Import ListNotations.
Open Scope string_scope.
Open Scope list_scope.

(** ** Exceptions *)

Inductive exn : Type :=
| IndexError
| KeyError
| ValueError.

Inductive result (A : Type) : Type :=
| Ok (a : A)
| Raise (e : exn).

Arguments Ok {A} a.
Arguments Raise {A} e.

Definition bind {A B : Type} (r : result A) (k : A -> result B) : result B :=
  match r with
  | Ok a => k a
  | Raise e => Raise e
  end.

Notation "x <- r ;; k" := (bind r (fun x => k))
  (at level 61, r at next level, right associativity).
Notation "' p <- r ;; k" := (bind r (fun p => k))
  (at level 61, p pattern, r at next level, right associativity).

(** ** Python strings *)

Module PyStr.

Definition is_us (c : ascii) : bool := Ascii.eqb c "_"%char.
Definition is_colon (c : ascii) : bool := Ascii.eqb c ":"%char.

(** [":" in s] *)
Fixpoint contains_colon (s : string) : bool :=
  match s with
  | EmptyString => false
  | String c rest => is_colon c || contains_colon rest
  end.

(** whether [s] begins with the separator ["__"] *)
Definition starts_dunder (s : string) : bool :=
  match s with
  | String c (String c' _) => is_us c && is_us c'
  | _ => false
  end.

Definition push_front (c : ascii) (parts : list string) : list string :=
  match parts with
  | [] => [String c EmptyString]
  | p :: ps => String c p :: ps
  end.

(** [s.split("__")]: the leftmost occurrence of the separator is cut first,
    the scan resumes after it; the result is never empty. *)
Fixpoint split_dunder (s : string) : list string :=
  match s with
  | EmptyString => [EmptyString]
  | String c rest =>
      match rest with
      | String c' rest' =>
          if is_us c && is_us c' then EmptyString :: split_dunder rest'
          else push_front c (split_dunder rest)
      | EmptyString => push_front c (split_dunder rest)
      end
  end.

(** ["__".join(parts)] *)
Fixpoint join_dunder (parts : list string) : string :=
  match parts with
  | [] => ""
  | [p] => p
  | p :: ps => p ++ "__" ++ join_dunder ps
  end.

(** [s.split(":", maxsplit=1)]: one element when [s] has no colon, else the
    text before the first colon and the text after it. *)
Fixpoint split_colon1 (s : string) : list string :=
  match s with
  | EmptyString => [EmptyString]
  | String c rest =>
      if is_colon c then [EmptyString; rest]
      else match split_colon1 rest with
           | k :: tl => String c k :: tl
           | [] => [String c EmptyString]
           end
  end.

(** whether the last character of [s] is an underscore *)
Fixpoint ends_us (s : string) : bool :=
  match s with
  | EmptyString => false
  | String c EmptyString => is_us c
  | String _ rest => ends_us rest
  end.

(** whether the separator ["__"] occurs in [s] *)
Fixpoint contains_dunder (s : string) : bool :=
  match s with
  | EmptyString => false
  | String _ rest => starts_dunder s || contains_dunder rest
  end.

(** the parts [segs], each behind a separator *)
Fixpoint tail_text (segs : list string) : string :=
  match segs with
  | [] => ""
  | s :: later => "__" ++ s ++ tail_text later
  end.

(** the last of the parts that [s.split("__")] gives *)
Definition last_part (s : string) : string := last (split_dunder s) "".

(** the number of code points of a UTF-8 text: the bytes that are not
    continuation bytes [10xxxxxx] *)
Definition is_continuation (c : ascii) : bool :=
  let n := nat_of_ascii c in Nat.leb 128 n && Nat.ltb n 192.

Fixpoint py_len (s : string) : nat :=
  match s with
  | EmptyString => 0
  | String c rest => (if is_continuation c then 0 else 1) + py_len rest
  end.

Fixpoint spaces (n : nat) : string :=
  match n with
  | 0 => ""
  | S m => String " "%char (spaces m)
  end.

(** the format specification [:<w]: left-justify in a field of [w] *)
Definition ljust (w : nat) (s : string) : string := s ++ spaces (w - py_len s).

End PyStr.

(** ** Python dictionaries *)

Module PyDict.

Definition dict (A : Type) : Type := list (string * A).

Section Ops.
Context {A : Type}.

(** [d.get(k)] *)
Fixpoint get (k : string) (d : dict A) : option A :=
  match d with
  | [] => None
  | (k', v) :: d' => if String.eqb k k' then Some v else get k d'
  end.

(** [d[k] = v]: an existing key keeps its place, a new key goes last *)
Fixpoint set (k : string) (v : A) (d : dict A) : dict A :=
  match d with
  | [] => [(k, v)]
  | (k', v') :: d' =>
      if String.eqb k k' then (k, v) :: d' else (k', v') :: set k v d'
  end.

(** [d[k]] *)
Definition item (k : string) (d : dict A) : result A :=
  match get k d with
  | Some v => Ok v
  | None => Raise KeyError
  end.

Definition keys (d : dict A) : list string := map fst d.

(** [d.update(e)] *)
Definition update (d e : dict A) : dict A :=
  fold_left (fun acc kv => set (fst kv) (snd kv) acc) e d.

(** [{k: d[k] for k in ks}] *)
Fixpoint comprehension (d : dict A) (ks : list string) (acc : dict A)
  : result (dict A) :=
  match ks with
  | [] => Ok acc
  | k :: ks' => v <- item k d ;; comprehension d ks' (set k v acc)
  end.

End Ops.

End PyDict.

(** ** The name grammar parser *)

Module Parser.
Import PyStr PyDict.

(** The character class [[\w\-]] of [modifier_rx] (line 32) on ASCII text:
    letters, digits, the underscore and the hyphen. *)
Definition word_or_hyphen (c : ascii) : bool :=
  let n := nat_of_ascii c in
  (Nat.leb 48 n && Nat.leb n 57) || (Nat.leb 65 n && Nat.leb n 90)
  || (Nat.leb 97 n && Nat.leb n 122) || Nat.eqb n 95 || Nat.eqb n 45.

Fixpoint all_chars (p : ascii -> bool) (s : string) : bool :=
  match s with
  | EmptyString => true
  | String c rest => p c && all_chars p rest
  end.

Definition nonempty (s : string) : bool :=
  match s with EmptyString => false | _ => true end.

(** [modifier_rx], the pattern [([\w\-]+)\:([\w\-]+)], matched against a
    whole part.  The pattern is compiled at line 32; no function of the
    file consults it. *)
Definition modifier_rx (part : string) : bool :=
  match split_colon1 part with
  | [key; value] =>
      nonempty key && all_chars word_or_hyphen key
      && nonempty value && all_chars word_or_hyphen value
  | _ => false
  end.

(** The [while] loop of [parse_metric_modifiers] (lines 59 to 61).  [stack]
    is [mn_mut] held top first, so its head is [mn_mut[-1]] and its tail is
    what [mn_mut.pop()] leaves.  Indexing the empty list raises
    [IndexError]; unpacking a split without a colon would raise
    [ValueError]. *)
Fixpoint pop_modifiers (stack : list string) (modifiers : dict string)
  : result (list string * dict string) :=
  match stack with
  | [] => Raise IndexError
  | top :: below =>
      if contains_colon top then
        match split_colon1 top with
        | [key; value] => pop_modifiers below (set key value modifiers)
        | _ => Raise ValueError
        end
      else Ok (stack, modifiers)
  end.

Definition parse_metric_modifiers (metric_name : string)
  : result (string * dict string) :=
  let mn_mut := split_dunder metric_name in
  '(stack, modifiers) <- pop_modifiers (rev mn_mut) [] ;;
  ordered <- comprehension modifiers (rev (keys modifiers)) [] ;;
  Ok (join_dunder (rev stack), ordered).

Definition has_colon (s : string) : Prop := contains_colon s = true.

(** what one turn of the loop records of the part it pops *)
Definition collect (modifiers : dict string) (part : string) : dict string :=
  match split_colon1 part with
  | [key; value] => set key value modifiers
  | _ => modifiers
  end.

(** A modifier segment [key:value] and the name that a base and a sequence
    of modifiers spell. *)
Definition segment (kv : string * string) : string :=
  fst kv ++ ":" ++ snd kv.

Definition build_name (base : string) (modifiers : list (string * string))
  : string :=
  join_dunder (base :: map segment modifiers).

(** the length of the text of a mapping's segments *)
Definition weight (d : dict string) : nat :=
  String.length (tail_text (map segment d)).

(** a segment that the pattern [modifier_rx] accepts *)
Definition well_formed (kv : string * string) : Prop :=
  modifier_rx (segment kv) = true.

(** Parsing [name] strips by the pattern: whenever the parts of [name] end
    in a run of parts that [modifier_rx] accepts, after a part that it
    rejects, the base is everything up to and including the rejected
    part. *)
Definition strips_by_pattern (name : string) : Prop :=
  forall kept p stripped,
    split_dunder name = kept ++ p :: stripped ->
    modifier_rx p = false ->
    Forall (fun s => modifier_rx s = true) stripped ->
    exists modifiers,
      parse_metric_modifiers name = Ok (join_dunder (kept ++ [p]), modifiers).

(** Parsing the name spelt by [base] and [modifiers] gives them back. *)
Definition round_trip (base : string) (modifiers : list (string * string))
  : Prop :=
  parse_metric_modifiers (build_name base modifiers) = Ok (base, modifiers).

End Parser.

(** ** The roll-up aggregator *)

Module Aggregator.
Import PyStr PyDict Parser.

Section WithValues.
(** metric values are opaque to the aggregator, except for their truth
    value, which the [or] of line 108 tests *)
Variable V : Type.
Variable truthy : V -> bool.

(** [MetricAggregator]: the initial accumulator and the reducer, which
    receives a list *)
Definition MetricAggregator : Type := (V * (list V -> V))%type.

(** Modelled from the spec: the class [Metric] of [metric.py], which is
    not among the sources.  The aggregator reads two of its attributes,
    the optional aggregation rule and the optional collection of
    modifier keys that are never aggregated over. *)
Record Metric : Type := {
  aggregator : option MetricAggregator;
  dont_aggregate : option (list string)
}.

(** [Union[MetricAggregator, Metric]] *)
Inductive registry_entry : Type :=
| AggregatorEntry (a : MetricAggregator)
| MetricEntry (m : Metric).

(** the global registry [Metric.by_name], the default of line 83 *)
Variable Metric_by_name : dict registry_entry.

(** [x or start], for [x] the result of [dict.get] *)
Definition or_start (x : option V) (start : V) : V :=
  match x with
  | Some v => if truthy v then v else start
  | None => start
  end.

(** [len(set(a).intersection(set(b)))] as a truth value *)
Definition intersects (a b : list string) : bool :=
  existsb (fun k => existsb (String.eqb k) b) a.

(** the inner loop, lines 106 to 110 *)
Fixpoint fold_prefixes (entry : MetricAggregator) (value : V)
    (modifiers : dict string) (modifier_names : list string)
    (metric_name_so_far : string) (aggregated : dict V)
  : result (dict V) :=
  match modifier_names with
  | [] => Ok aggregated
  | modifier :: later =>
      let '(start, aggregation_fn) := entry in
      let current := or_start (get metric_name_so_far aggregated) start in
      let aggregated :=
        set metric_name_so_far (aggregation_fn [current; value]) aggregated in
      mv <- item modifier modifiers ;;
      fold_prefixes entry value modifiers later
        (metric_name_so_far ++ "__" ++ modifier ++ ":" ++ mv) aggregated
  end.

(** the body of the outer loop, lines 87 to 110, for one item *)
Definition aggregate_item (aggregator_by_metric : dict registry_entry)
    (aggregated : dict V) (name : string) (value : V) : result (dict V) :=
  '(metric_name, modifiers) <- parse_metric_modifiers name ;;
  if Nat.ltb (length modifiers) 1 then Ok aggregated
  else
    let modifier_names := keys modifiers in
    let '(dont, entry) :=
      match get metric_name aggregator_by_metric with
      | Some (MetricEntry m) =>
          (match dont_aggregate m with Some l => l | None => [] end,
           aggregator m)
      | Some (AggregatorEntry a) => ([], Some a)
      | None => ([], None)
      end in
    match entry with
    | None => Ok aggregated
    | Some entry =>
        if intersects modifier_names dont then Ok aggregated
        else fold_prefixes entry value modifiers modifier_names
               metric_name aggregated
    end.

(** the outer loop over [input.items()] *)
Fixpoint aggregate_items (aggregator_by_metric : dict registry_entry)
    (items : list (string * V)) (aggregated : dict V) : result (dict V) :=
  match items with
  | [] => Ok aggregated
  | (name, value) :: later =>
      aggregated <- aggregate_item aggregator_by_metric aggregated name value ;;
      aggregate_items aggregator_by_metric later aggregated
  end.

Definition aggregate_metrics (input : dict V)
    (aggregator_by_metric : option (dict registry_entry)) : result (dict V) :=
  let aggregator_by_metric :=
    match aggregator_by_metric with
    | None => Metric_by_name
    | Some r => r
    end in
  aggregated <- aggregate_items aggregator_by_metric input [] ;;
  let final_values := input in
  Ok (update final_values aggregated).

(** the write of line 109 under the name [k], for the rule [(start, f)] *)
Definition fold_into (start : V) (f : list V -> V) (value : V)
    (aggregated : dict V) (k : string) : dict V :=
  set k (f [or_start (get k aggregated) start; value]) aggregated.

(** two dictionaries that answer every lookup alike *)
Definition same_lookups (a b : dict V) : Prop :=
  forall k, get k a = get k b.

(** every rule that the registry holds is [(start, f)] *)
Definition uniform (start : V) (f : list V -> V)
    (rules : dict registry_entry) : Prop :=
  forall base,
    match get base rules with
    | Some (AggregatorEntry a) => a = (start, f)
    | Some (MetricEntry m) =>
        aggregator m = None \/ aggregator m = Some (start, f)
    | None => True
    end.

(** Processing the item [name], [value] writes only under strict
    prefixes of [name]: whatever key of the accumulators it changes is a
    prefix of [name] and is not [name]. *)
Definition writes_strict_prefixes
    (aggregator_by_metric : dict registry_entry) (name : string)
    (value : V) : Prop :=
  forall aggregated aggregated' k,
    aggregate_item aggregator_by_metric aggregated name value
    = Ok aggregated' ->
    get k aggregated' <> get k aggregated ->
    prefix k name = true /\ k <> name.

End WithValues.

Arguments AggregatorEntry {V} a.
Arguments MetricEntry {V} m.

(** Numbers for the rules of the examples: integers and the two infinite
    floats. *)
Inductive num : Type :=
| NegInf
| Fin (z : Z)
| PosInf.

(** [bool(x)]: zero is false, every other number is true *)
Definition num_truthy (x : num) : bool :=
  match x with
  | Fin z => negb (Z.eqb z 0)
  | _ => true
  end.

(** [a < b] *)
Definition num_lt (a b : num) : bool :=
  match a, b with
  | NegInf, NegInf => false
  | NegInf, _ => true
  | Fin _, NegInf => false
  | Fin x, Fin y => Z.ltb x y
  | Fin _, PosInf => true
  | PosInf, _ => false
  end.

(** the builtin [min] on a list of numbers: the first least element.  On
    the empty list the builtin raises; the aggregator passes two
    elements. *)
Definition num_min (l : list num) : num :=
  match l with
  | [] => PosInf
  | x :: xs => fold_left (fun m y => if num_lt y m then y else m) xs x
  end.

(** the rule [(inf, min)], a minimum seeded with the infinite float *)
Definition min_aggregator : MetricAggregator num := (PosInf, num_min).

(** the rule [(0, lambda x: sum(x))] on integers, with their truth value *)
Definition int_truthy (z : Z) : bool := negb (Z.eqb z 0).

Definition int_sum (l : list Z) : Z := fold_left Z.add l 0%Z.

Definition sum_aggregator : MetricAggregator Z := (0%Z, int_sum).

Definition sum_rules : dict (registry_entry Z) :=
  [("m", AggregatorEntry sum_aggregator)].

(** a registry that gives the metric ["m"] the rule [(inf, min)] *)
Definition min_rules : dict (registry_entry num) :=
  [("m", AggregatorEntry min_aggregator)].

End Aggregator.

(** ** Comparison results, the table and the statistics *)

Module TableVerbosity.

Inductive t : Type := NONE | CRITICAL | WORSE | CHANGED | ALL.

(** the value of the [IntEnum] member *)
Definition value (v : t) : nat :=
  match v with
  | NONE => 0
  | CRITICAL => 1
  | WORSE => 2
  | CHANGED => 3
  | ALL => 4
  end.

(** [a >= b] *)
Definition ge (a b : t) : bool := Nat.leb (value b) (value a).

End TableVerbosity.

Module MetricComparisonResult.

(** Modelled from the spec: the class [MetricComparisonResult] of
    [metric.py], which is not among the sources.  A result carries the
    metric name, the flag [critical], the three-valued flag [better]
    (true, false or undetermined), what [is_changed()] answers and the
    three texts that [format_values()] returns (before, after, delta). *)
Record t : Type := {
  metric_name : string;
  critical : bool;
  better : option bool;
  is_changed : bool;
  format_values : string * string * string
}.

End MetricComparisonResult.

Module MetricStatistics.

Record t : Type := {
  better : nat;
  worse : nat;
  critical : nat;
  unchanged : nat
}.

(** [MetricStatistics()] *)
Definition init : t :=
  {| better := 0; worse := 0; critical := 0; unchanged := 0 |}.

End MetricStatistics.

Module MetricDiff.
Import PyStr PyDict Parser.
Module R := MetricComparisonResult.
Module S := MetricStatistics.

Record t : Type := { differences : list R.t }.

(** [_key_from_metrics], lines 117 to 125 *)
Definition _key_from_metrics (fields : list string) (metric : string)
  : result (list string) :=
  '(base, modifiers) <- parse_metric_modifiers metric ;;
  Ok (map (fun field =>
             if String.eqb field "" then base
             else match get field modifiers with
                  | Some v => v
                  | None => ""
                  end) fields).

(** [a < b] on strings *)
Definition str_lt (a b : string) : bool :=
  match String.compare a b with Lt => true | _ => false end.

(** [a < b] on lists of strings *)
Fixpoint key_lt (a b : list string) : bool :=
  match a, b with
  | [], [] => false
  | [], _ :: _ => true
  | _ :: _, [] => false
  | x :: a', y :: b' => if String.eqb x y then key_lt a' b' else str_lt x y
  end.

(** [sorted(rows, key=...)]: every key is computed first, then the rows
    are put in ascending order of their keys, rows of equal keys staying
    in their original order. *)
Fixpoint keyed (fields : list string) (rows : list R.t)
  : result (list (list string * R.t)) :=
  match rows with
  | [] => Ok []
  | x :: later =>
      k <- _key_from_metrics fields (R.metric_name x) ;;
      tl <- keyed fields later ;;
      Ok ((k, x) :: tl)
  end.

Fixpoint insert_by_key (kx : list string * R.t)
    (l : list (list string * R.t)) : list (list string * R.t) :=
  match l with
  | [] => [kx]
  | ky :: l' =>
      if key_lt (fst kx) (fst ky) then kx :: l
      else ky :: insert_by_key kx l'
  end.

Definition sorted_by_key (fields : list string) (rows : list R.t)
  : result (list R.t) :=
  ks <- keyed fields rows ;;
  Ok (map snd (fold_left (fun acc kx => insert_by_key kx acc) ks [])).

(** the four buckets of lines 183 to 196 *)
Record buckets : Type := {
  changed : list R.t;
  worse : list R.t;
  critical : list R.t;
  remaining : list R.t
}.

Definition classify (b : buckets) (row : R.t) : buckets :=
  if R.critical row then
    {| changed := changed b; worse := worse b;
       critical := critical b ++ [row]; remaining := remaining b |}
  else match R.better row with
       | Some false =>
           {| changed := changed b; worse := worse b ++ [row];
              critical := critical b; remaining := remaining b |}
       | _ =>
           if R.is_changed row then
             {| changed := changed b ++ [row]; worse := worse b;
                critical := critical b; remaining := remaining b |}
           else
             {| changed := changed b; worse := worse b;
                critical := critical b; remaining := remaining b ++ [row] |}
       end.

(** lines 198 to 206 *)
Definition listed (b : buckets) (table_verbosity : TableVerbosity.t)
  : list R.t :=
  let listed_differences := [] in
  let listed_differences :=
    if TableVerbosity.ge table_verbosity TableVerbosity.CRITICAL
    then listed_differences ++ critical b else listed_differences in
  let listed_differences :=
    if TableVerbosity.ge table_verbosity TableVerbosity.WORSE
    then listed_differences ++ worse b else listed_differences in
  let listed_differences :=
    if TableVerbosity.ge table_verbosity TableVerbosity.CHANGED
    then listed_differences ++ changed b else listed_differences in
  let listed_differences :=
    if TableVerbosity.ge table_verbosity TableVerbosity.ALL
    then listed_differences ++ remaining b else listed_differences in
  listed_differences.

Definition newline : string := String (ascii_of_nat 10) EmptyString.

Definition glyph_better : string := " ⭕".
Definition glyph_worse : string := " ❗".
Definition glyph_critical : string := " ‼️".

(** the annotation of lines 218 to 225 *)
Definition emoji_of (row : R.t) : string :=
  let emoji := "" in
  let emoji :=
    match R.better row with
    | Some b => if b then glyph_better else glyph_worse
    | None => emoji
    end in
  let emoji :=
    if R.critical row && R.is_changed row then glyph_critical else emoji in
  emoji.

(** the table line of one result, line 226 *)
Definition row_line (row : R.t) : string :=
  let '(before, after, delta) := R.format_values row in
  let emoji := emoji_of row in
  "| " ++ ljust 70 (R.metric_name row) ++ " | " ++ ljust 10 before
  ++ " | " ++ ljust 10 after ++ " | " ++ ljust 20 (delta ++ emoji)
  ++ " |" ++ newline.

(** the heading of lines 209 to 214 as [textwrap.dedent] leaves it: an empty
    first line, the two heading lines without their indentation, and
    nothing for the closing line of blanks *)
Definition heading : string :=
  newline
  ++ "| " ++ ljust 70 "Metric" ++ " | " ++ ljust 10 "Before" ++ " | "
  ++ ljust 10 "After" ++ " | " ++ ljust 20 "Delta" ++ " |" ++ newline
  ++ "| " ++ ljust 70 "-" ++ " | " ++ ljust 10 "-" ++ " | "
  ++ ljust 10 "-" ++ " | " ++ ljust 20 "-" ++ " |" ++ newline.

Definition table_of (listed_differences : list R.t) : string :=
  let table := "" in
  if Nat.ltb 0 (length listed_differences)
  then fold_left (fun table row => (table ++ row_line row)%string)
         listed_differences heading
  else table.

(** the rows that [render_md] lists, lines 174 to 206 *)
Definition listed_differences (self : t) (sort_by : option (list string))
    (table_verbosity : TableVerbosity.t) : result (list R.t) :=
  rows <- match sort_by with
          | Some (f :: fs) => sorted_by_key (f :: fs) (differences self)
          | _ => Ok (differences self)
          end ;;
  let empty := {| changed := []; worse := []; critical := [];
                  remaining := [] |} in
  Ok (listed (fold_left classify rows empty) table_verbosity).

Definition render_md (self : t) (sort_by : option (list string))
    (table_verbosity : TableVerbosity.t) : result string :=
  match table_verbosity with
  | TableVerbosity.NONE => Ok ""
  | _ =>
      rows <- listed_differences self sort_by table_verbosity ;;
      Ok (table_of rows)
  end.

(** one turn of the loop of [stats], lines 236 to 244 *)
Definition count_row (stats : S.t) (row : R.t) : S.t :=
  let stats :=
    if negb (R.is_changed row) then
      {| S.better := S.better stats; S.worse := S.worse stats;
         S.critical := S.critical stats;
         S.unchanged := S.unchanged stats + 1 |}
    else match R.better row with
         | Some b =>
             if b then
               {| S.better := S.better stats + 1; S.worse := S.worse stats;
                  S.critical := S.critical stats;
                  S.unchanged := S.unchanged stats |}
             else
               {| S.better := S.better stats; S.worse := S.worse stats + 1;
                  S.critical := S.critical stats;
                  S.unchanged := S.unchanged stats |}
         | None => stats
         end in
  if R.critical row then
    {| S.better := S.better stats; S.worse := S.worse stats;
       S.critical := S.critical stats + 1;
       S.unchanged := S.unchanged stats |}
  else stats.

Definition stats (self : t) : S.t :=
  fold_left count_row (differences self) S.init.

(** a changed result whose flag [better] is undetermined *)
Definition undetermined (row : R.t) : bool :=
  R.is_changed row && match R.better row with None => true | Some _ => false end.

(** an unchanged result, or one whose flag [better] is determinate *)
Definition determinate (row : R.t) : Prop :=
  R.is_changed row = false \/ R.better row <> None.

(** the lines of a table, one after the other *)
Fixpoint lines_text (lines : list string) : string :=
  match lines with
  | [] => ""
  | l :: later => l ++ lines_text later
  end.

(** An unchanged result that is not critical carries no glyph. *)
Definition no_glyph_when_unchanged (row : R.t) : Prop :=
  R.is_changed row = false -> R.critical row = false -> emoji_of row = "".

(** a result with the given name and flags, for the examples *)
Definition sample_row (name : string) (crit : bool) (bet : option bool)
    (chg : bool) : R.t :=
  {| R.metric_name := name; R.critical := crit; R.better := bet;
     R.is_changed := chg; R.format_values := ("1", "2", "+1") |}.

End MetricDiff.

(** ** Further notions on names *)

Module Names.
Import PyStr PyDict Parser.

(** whether [s] begins with an underscore *)
Definition hd_us (s : string) : bool :=
  match s with
  | String c _ => is_us c
  | EmptyString => false
  end.

(** the mapping that the parser builds from the modifier segments [kvs],
    given in the order in which they stand in the name *)
Definition parsed_modifiers (kvs : list (string * string)) : dict string :=
  rev (fold_left collect (map segment (rev kvs)) []).

End Names.

(** ** The names an item writes, and what rolls up under a name *)

Module Rollup.
Import PyStr PyDict Parser Aggregator.

(** the names under which the inner loop writes, in the order of the
    writes: the base, then the base with one more modifier each time, up
    to all the modifiers but the last *)
Definition prefix_names (base : string) (modifiers : dict string)
  : list string :=
  map (fun j => build_name base (firstn j modifiers))
      (seq 0 (length modifiers)).

(** the same names, following the loop: [done] holds the modifiers that
    [metric_name_so_far] has taken up, [todo] those still to come *)
Fixpoint names_from (base : string) (done todo : dict string) : list string :=
  match todo with
  | [] => []
  | kv :: later => build_name base done :: names_from base (done ++ [kv]) later
  end.

Section WithValues.
Variable V : Type.

(** lines 93 to 97: the keys never to aggregate over and the rule, as the
    registry gives them for a base *)
Definition resolve (rules : dict (registry_entry V)) (base : string)
  : list string * option (MetricAggregator V) :=
  match get base rules with
  | Some (MetricEntry m) =>
      (match dont_aggregate V m with Some l => l | None => [] end,
       aggregator V m)
  | Some (AggregatorEntry a) => ([], Some a)
  | None => ([], None)
  end.

(** the names under which the item [name] writes: none when it has no
    modifiers, no rule, or a modifier that is never aggregated over *)
Definition item_names (rules : dict (registry_entry V)) (name : string)
  : list string :=
  match parse_metric_modifiers name with
  | Ok (base, modifiers) =>
      if Nat.ltb (length modifiers) 1 then []
      else match resolve rules base with
           | (dont, Some _) =>
               if intersects (keys modifiers) dont then []
               else prefix_names base modifiers
           | (_, None) => []
           end
  | Raise _ => []
  end.

(** whether the item [name] writes under [k] *)
Definition rolls_into (rules : dict (registry_entry V)) (k : string)
    (name : string) : bool :=
  existsb (String.eqb k) (item_names rules name).

(** the values of the items that write under [k], in the order of the
    input *)
Definition rolled (rules : dict (registry_entry V)) (k : string)
    (items : list (string * V)) : list V :=
  map snd (filter (fun item => rolls_into rules k (fst item)) items).

(** the rule that the registry gives the base of the item [name] *)
Definition item_rule (rules : dict (registry_entry V)) (name : string)
  : option (MetricAggregator V) :=
  match parse_metric_modifiers name with
  | Ok (base, _) => snd (resolve rules base)
  | Raise _ => None
  end.

(** an item with nothing to roll up: it has no modifiers, or the registry
    has no rule for its base, or one of its modifier keys is never
    aggregated over *)
Definition nothing_to_roll (rules : dict (registry_entry V)) (name : string)
  : Prop :=
  exists base modifiers,
    parse_metric_modifiers name = Ok (base, modifiers)
    /\ (modifiers = []
        \/ snd (resolve rules base) = None
        \/ exists k, In k (keys modifiers) /\ In k (fst (resolve rules base))).

(** the accumulator under one name after folding [values] into it, as
    lines 108 and 109 do: [None] stands for a name not yet written *)
Definition folded (truthy : V -> bool) (start : V) (f : list V -> V)
    (cur : option V) (values : list V) : option V :=
  fold_left (fun o v => Some (f [or_start V truthy o start; v])) values cur.

(** the reducer folded over values from the left, seeded with [start] *)
Definition fold_values (start : V) (f : list V -> V) (values : list V) : V :=
  fold_left (fun acc v => f [acc; v]) values start.

End WithValues.

End Rollup.

(** ** Sorting *)

Module Sorting.
Import PyStr PyDict Parser MetricDiff.

Section Generic.
Context {A : Type}.
Variable lt : A -> A -> bool.

(** an element goes before the first element that is greater *)
Fixpoint insert_by (x : A) (l : list A) : list A :=
  match l with
  | [] => [x]
  | y :: l' => if lt x y then x :: l else y :: insert_by x l'
  end.

(** [sorted(l)] for the order [lt] *)
Definition sorted_by (l : list A) : list A :=
  fold_left (fun acc x => insert_by x acc) l [].

(** [a] does not come after [b]: [b] is not less than [a] *)
Definition not_after (a b : A) : Prop := lt b a = false.

End Generic.

(** the order of rows that carry their keys *)
Definition keyed_lt (a b : list string * R.t) : bool :=
  key_lt (fst a) (fst b).

Definition strings_eqb (a b : list string) : bool :=
  if list_eq_dec string_dec a b then true else false.

(** whether the sort key of [row] for [fields] is [key] *)
Definition has_key (fields : list string) (key : list string) (row : R.t)
  : bool :=
  match _key_from_metrics fields (R.metric_name row) with
  | Ok k => strings_eqb k key
  | Raise _ => false
  end.

(** a row paired with the key that [_key_from_metrics] gives its name *)
Definition consistent (fields : list string) (kx : list string * R.t) : Prop :=
  _key_from_metrics fields (R.metric_name (snd kx)) = Ok (fst kx).

(** the rows in the order that [render_md] buckets them: sorted when
    [sort_by] names fields, as they are otherwise (lines 174 to 179) *)
Definition ordered_rows (self : MetricDiff.t) (sort_by : option (list string))
  : result (list R.t) :=
  match sort_by with
  | Some (f :: fs) => sorted_by_key (f :: fs) (differences self)
  | _ => Ok (differences self)
  end.

(** the tests of lines 189 to 196, one for each bucket *)
Definition is_worse (row : R.t) : bool :=
  match R.better row with Some false => true | _ => false end.

Definition in_critical (row : R.t) : bool := R.critical row.

Definition in_worse (row : R.t) : bool :=
  negb (R.critical row) && is_worse row.

Definition in_changed (row : R.t) : bool :=
  negb (R.critical row) && negb (is_worse row) && R.is_changed row.

Definition in_remaining (row : R.t) : bool :=
  negb (R.critical row) && negb (is_worse row) && negb (R.is_changed row).

(** the tests of lines 236 to 242 *)
Definition counts_better (row : R.t) : bool :=
  R.is_changed row && match R.better row with Some true => true | _ => false end.

Definition counts_worse (row : R.t) : bool :=
  R.is_changed row && is_worse row.

Definition counts_unchanged (row : R.t) : bool := negb (R.is_changed row).


End Sorting.

(** ** The diff of two snapshots *)

Module FromMetrics.
Import PyStr PyDict Parser MetricDiff.

(** what a call can raise: an exception of the builtins that the file
    itself provokes, or whatever a collaborator raises *)
Inductive raised (X : Type) : Type :=
| Builtin (e : exn)
| External (x : X).

Arguments Builtin {X} e.
Arguments External {X} x.

Inductive outcome (X A : Type) : Type :=
| Returned (a : A)
| Thrown (e : raised X).

Arguments Returned {X A} a.
Arguments Thrown {X A} e.

Section WithCollaborators.
(** metric values, [Metric] objects and the exceptions of collaborators *)
Variable V : Type.
Variable M : Type.
Variable X : Type.
(** [type(a) != type(b)] *)
Variable type_differs : V -> V -> bool.
(** [type(rhs)(lhs)], which may raise *)
Variable convert : V -> V -> outcome X V.
(** the registry [Metric.by_name] *)
Variable Metric_by_name : dict M.
(** [metric_object.compare(lhs, rhs, significant_figures,
    modifiers=modifiers)], which may raise *)
Variable compare : M -> V -> V -> Z -> dict string -> outcome X R.t.

(** [m in d] *)
Definition in_snapshot (d : dict V) (m : string) : bool :=
  match get m d with Some _ => true | None => false end.

(** [d[k]] *)
Definition subscript (k : string) (d : dict V) : outcome X V :=
  match get k d with
  | Some v => Returned v
  | None => Thrown (Builtin KeyError)
  end.

(** [sorted(n.keys())] *)
Definition sorted_keys (n : dict V) : list string :=
  Sorting.sorted_by str_lt (keys n).

(** the body of the loop of [generator], lines 267 to 277, for one
    metric: nothing is yielded, or one result is.  A [Metric] object that
    the registry holds is taken to be truthy, as an object is that defines
    neither [__bool__] nor [__len__]. *)
Definition compare_one (g n : dict V) (significant_figures : Z)
    (metric : string) : outcome X (option R.t) :=
  match get metric g with
  | None => Returned None
  | Some _ =>
      match parse_metric_modifiers metric with
      | Raise e => Thrown (Builtin e)
      | Ok (base_metric, modifiers) =>
          match subscript metric g with
          | Thrown e => Thrown e
          | Returned lhs_value =>
              match subscript metric n with
              | Thrown e => Thrown e
              | Returned rhs_value =>
                  match (if type_differs lhs_value rhs_value
                         then convert rhs_value lhs_value
                         else Returned lhs_value) with
                  | Thrown e => Thrown e
                  | Returned lhs_value =>
                      match get base_metric Metric_by_name with
                      | Some metric_object =>
                          match compare metric_object lhs_value rhs_value
                                  significant_figures modifiers with
                          | Returned r => Returned (Some r)
                          | Thrown e => Thrown e
                          end
                      | None => Returned None
                      end
                  end
              end
          end
      end
  end.

(** [list(generator(g, n))] over the metrics that the filter gave *)
Fixpoint generate (g n : dict V) (significant_figures : Z)
    (metrics : list string) : outcome X (list R.t) :=
  match metrics with
  | [] => Returned []
  | metric :: later =>
      match compare_one g n significant_figures metric with
      | Thrown e => Thrown e
      | Returned yielded =>
          match generate g n significant_figures later with
          | Thrown e => Thrown e
          | Returned rest =>
              Returned (match yielded with
                        | Some r => r :: rest
                        | None => rest
                        end)
          end
      end
  end.

(** [MetricDiff.from_metrics]; [filter] is the method [filter.filter] of
    the filter passed *)
Definition from_metrics (gold new : dict V) (significant_figures : Z)
    (filter : list string -> list string) : outcome X MetricDiff.t :=
  match generate gold new significant_figures (filter (sorted_keys new)) with
  | Returned results => Returned {| differences := results |}
  | Thrown e => Thrown e
  end.

End WithCollaborators.

End FromMetrics.

(** * Properties *)

(** ** Strings *)

Module PyStrFacts.
Import PyStr.
Local Open Scope string_scope.

Lemma is_us_true c : is_us c = true -> c = "_"%char.
Proof. unfold is_us. apply Ascii.eqb_eq. Qed.

Lemma split_dunder_cut s : split_dunder ("__" ++ s) = "" :: split_dunder s.
Proof. reflexivity. Qed.

Lemma split_dunder_step c s :
  starts_dunder (String c s) = false ->
  split_dunder (String c s) = push_front c (split_dunder s).
Proof.
  destruct s as [|c' s']; [reflexivity|].
  intros H. change (starts_dunder (String c (String c' s')))
    with (is_us c && is_us c') in H.
  change (split_dunder (String c (String c' s')))
    with (if is_us c && is_us c' then "" :: split_dunder s'
          else push_front c (split_dunder (String c' s'))).
  rewrite H. reflexivity.
Qed.

(** Induction along the scan of [split_dunder]: the empty text, a text
    that begins with the separator, a text that does not. *)
Lemma dunder_ind (P : string -> Prop) :
  P "" ->
  (forall s, P s -> P ("__" ++ s)) ->
  (forall c s, starts_dunder (String c s) = false -> P s -> P (String c s)) ->
  forall s, P s.
Proof.
  intros Hnil Hcut Hstep.
  assert (forall s, P s /\ forall c, P (String c s)) as H.
  { induction s as [|c' s' [IH1 IH2]].
    - split; [exact Hnil|]. intros c. apply Hstep; [reflexivity | exact Hnil].
    - split; [apply IH2|]. intros c.
      destruct (starts_dunder (String c (String c' s'))) eqn:E.
      + simpl in E. apply andb_true_iff in E as [Ec Ec'].
        apply is_us_true in Ec, Ec'. subst. apply (Hcut s' IH1).
      + apply Hstep; [exact E | apply IH2]. }
  intros s. apply H.
Qed.

Lemma split_dunder_nonempty s : split_dunder s <> [].
Proof.
  induction s using dunder_ind.
  - discriminate.
  - rewrite split_dunder_cut. discriminate.
  - rewrite split_dunder_step by assumption.
    destruct (split_dunder s); discriminate.
Qed.

Lemma join_push_front c l :
  l <> [] -> join_dunder (push_front c l) = String c (join_dunder l).
Proof.
  destruct l as [|p [|q r]]; [congruence | reflexivity | reflexivity].
Qed.

Lemma join_cons p l :
  l <> [] -> join_dunder (p :: l) = p ++ "__" ++ join_dunder l.
Proof. destruct l; [congruence | reflexivity]. Qed.

(** joining what [split] gave restores the text *)
Lemma join_split s : join_dunder (split_dunder s) = s.
Proof.
  induction s using dunder_ind.
  - reflexivity.
  - rewrite split_dunder_cut, join_cons by apply split_dunder_nonempty.
    rewrite IHs. reflexivity.
  - rewrite split_dunder_step by assumption.
    rewrite join_push_front by apply split_dunder_nonempty.
    rewrite IHs. reflexivity.
Qed.

Lemma last_push_front c l :
  l <> [] ->
  last (push_front c l) "" =
  match l with [p] => String c p | _ => last l "" end.
Proof. destruct l as [|p [|q r]]; [congruence | reflexivity | reflexivity]. Qed.

Lemma ends_us_cons c p : ends_us (String c p) = false -> ends_us p = false.
Proof. destruct p; [reflexivity | simpl; auto]. Qed.

Lemma last_part_step c s :
  starts_dunder (String c s) = false ->
  ends_us (last_part (String c s)) = false ->
  ends_us (last_part s) = false.
Proof.
  unfold last_part. intros Hs. rewrite split_dunder_step by assumption.
  rewrite last_push_front by apply split_dunder_nonempty.
  destruct (split_dunder s) as [|p [|q r]]; [auto | | auto].
  simpl. apply ends_us_cons.
Qed.

Lemma push_front_app c l l' :
  l <> [] -> push_front c (l ++ l')%list = (push_front c l ++ l')%list.
Proof. destruct l; [congruence | reflexivity]. Qed.

(** [split] distributes over a separator that follows a text whose last
    part does not end in an underscore *)
Lemma split_dunder_app a b :
  ends_us (last_part a) = false ->
  split_dunder (a ++ "__" ++ b) = (split_dunder a ++ split_dunder b)%list.
Proof.
  induction a using dunder_ind; intros Hlast.
  - reflexivity.
  - change (("__" ++ a) ++ "__" ++ b) with ("__" ++ (a ++ "__" ++ b)).
    rewrite !split_dunder_cut. rewrite IHa; [reflexivity|].
    unfold last_part in *. rewrite split_dunder_cut in Hlast.
    pose proof (split_dunder_nonempty a).
    destruct (split_dunder a); [congruence | exact Hlast].
  - change (String c a ++ "__" ++ b) with (String c (a ++ "__" ++ b)).
    assert (starts_dunder (String c (a ++ "__" ++ b)) = false) as Hs.
    { destruct a as [|c' a'].
      - unfold last_part in Hlast. simpl in Hlast. simpl.
        rewrite Hlast. reflexivity.
      - exact H. }
    rewrite split_dunder_step by exact Hs.
    rewrite IHa by (eapply last_part_step; eassumption).
    rewrite push_front_app by apply split_dunder_nonempty.
    rewrite <- split_dunder_step by assumption. reflexivity.
Qed.

Lemma split_no_dunder s : contains_dunder s = false -> split_dunder s = [s].
Proof.
  induction s as [|c s IH]; [reflexivity|].
  intros H. change (contains_dunder (String c s))
    with (starts_dunder (String c s) || contains_dunder s) in H.
  apply orb_false_iff in H as [H1 H2].
  rewrite split_dunder_step, IH by assumption. reflexivity.
Qed.

Lemma last_part_no_dunder s : contains_dunder s = false -> last_part s = s.
Proof. intros H. unfold last_part. rewrite split_no_dunder by assumption. reflexivity. Qed.

Lemma contains_colon_app a b :
  contains_colon (a ++ b) = contains_colon a || contains_colon b.
Proof.
  induction a as [|c a IH]; [reflexivity|].
  simpl. rewrite IH. apply orb_assoc.
Qed.

(** a text with a colon splits, at its first colon, into a key without
    colon and a value that together spell it *)
Lemma split_colon1_some s :
  contains_colon s = true ->
  exists k v, split_colon1 s = [k; v] /\ s = k ++ ":" ++ v
              /\ contains_colon k = false.
Proof.
  induction s as [|c s IH]; [discriminate|].
  simpl. destruct (is_colon c) eqn:Ec.
  - intros _. exists "", s. unfold is_colon in Ec.
    apply Ascii.eqb_eq in Ec. subst c. auto.
  - simpl. intros H. destruct (IH H) as (k & v & Hk & Hs & Hc).
    exists (String c k), v. rewrite Hk. simpl. rewrite Ec, Hc.
    repeat split. f_equal. exact Hs.
Qed.

Lemma split_colon1_segment k v :
  contains_colon k = false -> split_colon1 (k ++ ":" ++ v) = [k; v].
Proof.
  induction k as [|c k IH]; [reflexivity|].
  simpl. intros H. apply orb_false_iff in H as [H1 H2].
  rewrite H1. simpl in IH. rewrite IH by assumption. reflexivity.
Qed.

Lemma length_append a b :
  String.length (a ++ b) = String.length a + String.length b.
Proof. induction a as [|c a IH]; simpl; [reflexivity | rewrite IH; reflexivity]. Qed.

Lemma append_assoc (a b c : string) : (a ++ b) ++ c = a ++ (b ++ c).
Proof. induction a as [|x a IH]; simpl; [reflexivity | rewrite IH; reflexivity]. Qed.

Lemma append_nil_r (a : string) : a ++ "" = a.
Proof. induction a as [|x a IH]; simpl; [reflexivity | rewrite IH; reflexivity]. Qed.

End PyStrFacts.

(** ** Dictionaries *)

Module PyDictFacts.
Import PyDict.

Section Facts.
Context {A : Type}.
Implicit Types (d e : dict A) (k : string) (v : A).

Lemma get_set_eq k v d : get k (set k v d) = Some v.
Proof.
  induction d as [|[k' v'] d IH]; simpl.
  - rewrite String.eqb_refl. reflexivity.
  - destruct (String.eqb k k') eqn:E; simpl; rewrite ?String.eqb_refl, ?E; auto.
Qed.

Lemma get_set_neq k k' v d : k <> k' -> get k' (set k v d) = get k' d.
Proof.
  intros Hne. induction d as [|[k0 v0] d IH]; simpl.
  - apply String.eqb_neq in Hne. rewrite String.eqb_sym, Hne. reflexivity.
  - destruct (String.eqb k k0) eqn:E; simpl.
    + apply String.eqb_eq in E. subst k0.
      assert (String.eqb k' k = false) as ->
          by (apply String.eqb_neq; congruence).
      reflexivity.
    + rewrite IH. reflexivity.
Qed.

Lemma in_set k v d kv : In kv (set k v d) -> kv = (k, v) \/ In kv d.
Proof.
  induction d as [|[k' v'] d IH]; simpl.
  - intros [H|[]]; auto.
  - destruct (String.eqb k k'); simpl; intros [H|H]; auto.
    apply IH in H as [H|H]; auto.
Qed.

Lemma keys_set k v d k' :
  In k' (keys (set k v d)) <-> k' = k \/ In k' (keys d).
Proof.
  unfold keys. induction d as [|[k0 v0] d IH]; simpl.
  - intuition.
  - destruct (String.eqb k k0) eqn:E; simpl.
    + apply String.eqb_eq in E. subst k0. intuition.
    + rewrite IH. intuition.
Qed.

Lemma set_fresh k v d : ~ In k (keys d) -> set k v d = (d ++ [(k, v)])%list.
Proof.
  unfold keys. induction d as [|[k' v'] d IH]; simpl; [reflexivity|].
  intros H. destruct (String.eqb k k') eqn:E.
  - apply String.eqb_eq in E. subst. tauto.
  - rewrite IH by tauto. reflexivity.
Qed.

Lemma NoDup_set k v d : NoDup (keys d) -> NoDup (keys (set k v d)).
Proof.
  unfold keys. induction d as [|[k' v'] d IH]; simpl; intros H.
  - constructor; [intros [] | constructor].
  - inversion H as [|? ? Hn Hd]; subst.
    destruct (String.eqb k k') eqn:E; simpl.
    + apply String.eqb_eq in E. subst. constructor; assumption.
    + constructor; [|auto]. intros Hin.
      apply (keys_set k v d k') in Hin as [Hk|Hin]; [|tauto].
      subst. rewrite String.eqb_refl in E. discriminate.
Qed.

Lemma get_none k d : get k d = None <-> ~ In k (keys d).
Proof.
  unfold keys. induction d as [|[k' v'] d IH]; simpl; [tauto|].
  destruct (String.eqb k k') eqn:E.
  - apply String.eqb_eq in E. subst. split; [discriminate | tauto].
  - apply String.eqb_neq in E. rewrite IH. intuition congruence.
Qed.

Lemma get_in k v d : NoDup (keys d) -> In (k, v) d -> get k d = Some v.
Proof.
  unfold keys. induction d as [|[k' v'] d IH]; simpl; [tauto|].
  intros Hnd [H|H]; inversion Hnd as [|? ? Hn Hd]; subst.
  - inversion H; subst. rewrite String.eqb_refl. reflexivity.
  - destruct (String.eqb k k') eqn:E; [|auto].
    apply String.eqb_eq in E. subst. exfalso. apply Hn.
    apply (in_map fst) in H. exact H.
Qed.

Lemma get_some_in k v d : get k d = Some v -> In (k, v) d.
Proof.
  induction d as [|[k' v'] d IH]; simpl; [discriminate|].
  destruct (String.eqb k k') eqn:E; [|auto].
  apply String.eqb_eq in E. intros [= ->]. subst. auto.
Qed.

(** [update] overlays: the keys of [e] take the values of [e], every
    other key keeps the value it has in [d] *)
Lemma get_update k d e :
  NoDup (keys e) ->
  get k (update d e) =
  match get k e with Some v => Some v | None => get k d end.
Proof.
  unfold update, keys. revert d.
  induction e as [|[k1 v1] e IH]; intros d Hnd; simpl; [reflexivity|].
  inversion Hnd as [|? ? Hn Hd]; subst. rewrite IH by assumption.
  destruct (String.eqb k k1) eqn:E.
  - apply String.eqb_eq in E. subst k1.
    apply get_none in Hn. rewrite Hn. apply get_set_eq.
  - apply String.eqb_neq in E.
    rewrite get_set_neq by congruence. reflexivity.
Qed.

Lemma NoDup_update d e : NoDup (keys d) -> NoDup (keys (update d e)).
Proof.
  unfold update. revert d. induction e as [|[k1 v1] e IH]; intros d H; simpl;
    [assumption|]. apply IH, NoDup_set, H.
Qed.

Lemma comprehension_app d (l : dict A) acc :
  NoDup (keys l) ->
  (forall kv, In kv l -> get (fst kv) d = Some (snd kv)) ->
  (forall k, In k (keys l) -> ~ In k (keys acc)) ->
  comprehension d (keys l) acc = Ok (acc ++ l)%list.
Proof.
  revert acc. induction l as [|[k v] l IH]; intros acc Hnd Hget Hfresh; simpl.
  - rewrite app_nil_r. reflexivity.
  - inversion Hnd as [|? ? Hn Hd]; subst. unfold item.
    pose proof (Hget (k, v) (or_introl eq_refl)) as Hk. simpl in Hk.
    rewrite Hk. simpl.
    rewrite set_fresh by (apply Hfresh; left; reflexivity).
    change (map fst l) with (keys l). rewrite IH.
    + rewrite <- app_assoc. reflexivity.
    + assumption.
    + intros kv Hin. apply Hget. right. exact Hin.
    + intros k' Hin Hacc. unfold keys in Hacc. rewrite map_app in Hacc.
      apply in_app_or in Hacc as [Hacc|[Hacc|[]]].
      * apply (Hfresh k'); [right; exact Hin | exact Hacc].
      * simpl in Hacc. subst. tauto.
Qed.

(** [{k: d[k] for k in reversed(d)}] is [d] in reverse order *)
Lemma comprehension_reversed d :
  NoDup (keys d) -> comprehension d (rev (keys d)) [] = Ok (rev d).
Proof.
  intros Hnd.
  replace (rev (keys d)) with (keys (rev d)) by apply map_rev.
  rewrite comprehension_app; [reflexivity | | | ].
  - unfold keys. rewrite map_rev. apply NoDup_rev. exact Hnd.
  - intros [k v] Hin. apply get_in; [exact Hnd|]. apply in_rev. exact Hin.
  - intros k _ [].
Qed.

End Facts.

End PyDictFacts.

(** ** The parser *)

Module ParserFacts.
Import PyStr PyDict Parser PyStrFacts PyDictFacts.
Local Open Scope string_scope.

Lemma collect_colon d part :
  has_colon part ->
  exists k v, part = k ++ ":" ++ v /\ contains_colon k = false
              /\ collect d part = set k v d.
Proof.
  intros H. destruct (split_colon1_some part H) as (k & v & Hs & Hp & Hk).
  exists k, v. unfold collect. rewrite Hs. auto.
Qed.

Lemma pop_modifiers_run l stack d :
  Forall has_colon l ->
  pop_modifiers (l ++ stack) d = pop_modifiers stack (fold_left collect l d).
Proof.
  intros H. revert d. induction H as [|part l Hp Hl IH]; intros d; [reflexivity|].
  simpl. rewrite Hp.
  destruct (split_colon1_some part Hp) as (k & v & Hs & _ & _).
  rewrite Hs, IH. f_equal. unfold collect. rewrite Hs. reflexivity.
Qed.

Lemma pop_modifiers_stop p below d :
  contains_colon p = false -> pop_modifiers (p :: below) d = Ok (p :: below, d).
Proof. intros H. simpl. rewrite H. reflexivity. Qed.

(** the loop runs off the list when every part has a colon *)
Lemma pop_modifiers_exhausts l d :
  Forall has_colon l -> pop_modifiers l d = Raise IndexError.
Proof.
  intros H. rewrite <- (app_nil_r l). rewrite pop_modifiers_run by assumption.
  reflexivity.
Qed.

Lemma NoDup_collect l d :
  NoDup (keys d) -> NoDup (keys (fold_left collect l d)).
Proof.
  revert d. induction l as [|part l IH]; intros d H; simpl; [assumption|].
  apply IH. unfold collect.
  destruct (split_colon1 part) as [|k [|v [|? ?]]]; auto using NoDup_set.
Qed.

(** every recorded modifier spells one of the parts that were popped *)
Lemma collect_sound l d k v :
  In (k, v) (fold_left collect l d) -> In (k, v) d \/ In (k ++ ":" ++ v) l.
Proof.
  revert d. induction l as [|part l IH]; intros d H; simpl in *; [auto|].
  apply IH in H as [H|H]; [|auto].
  unfold collect in H. destruct (contains_colon part) eqn:Hc.
  - destruct (split_colon1_some part Hc) as (k' & v' & Hs & Hp & _).
    rewrite Hs in H. apply in_set in H as [H|H]; [|auto].
    inversion H; subst. auto.
  - left. revert H. clear - Hc. 
    assert (split_colon1 part = [part]) as ->; [|auto].
    induction part as [|c s IHs]; [reflexivity|]. simpl in *.
    apply orb_false_iff in Hc as [H1 H2]. rewrite H1, IHs by assumption.
    reflexivity.
Qed.

Lemma collect_keeps_keys l d k :
  In k (keys d) -> In k (keys (fold_left collect l d)).
Proof.
  revert d. induction l as [|part l IH]; intros d H; simpl; [assumption|].
  apply IH. unfold collect.
  destruct (split_colon1 part) as [|k' [|v' [|? ?]]]; auto.
  apply keys_set. auto.
Qed.

(** every popped part leaves its key in the mapping *)
Lemma collect_complete l d part :
  Forall has_colon l -> In part l ->
  exists k v, part = k ++ ":" ++ v /\ contains_colon k = false
              /\ In k (keys (fold_left collect l d)).
Proof.
  intros H. revert d. induction H as [|q l Hq Hl IH]; intros d [].
  - subst q. destruct (collect_colon d part Hq) as (k & v & Hp & Hk & Hc).
    exists k, v. repeat split; auto. simpl. rewrite Hc.
    apply collect_keeps_keys, keys_set. auto.
  - simpl. apply IH. assumption.
Qed.

(** distinct keys are recorded in the order of popping *)
Lemma collect_distinct kvs d :
  NoDup (map fst kvs) ->
  Forall (fun kv => contains_colon (fst kv) = false) kvs ->
  (forall k, In k (map fst kvs) -> ~ In k (keys d)) ->
  fold_left collect (map segment kvs) d = (d ++ kvs)%list.
Proof.
  revert d. induction kvs as [|[k v] kvs IH]; intros d Hnd Hk Hfresh; simpl.
  - rewrite app_nil_r. reflexivity.
  - inversion Hnd as [|? ? Hn Hd]; subst. inversion Hk as [|? ? Hk1 Hk2]; subst.
    unfold collect at 2, segment at 2. simpl fst. simpl snd.
    rewrite split_colon1_segment by exact Hk1.
    rewrite set_fresh by (apply Hfresh; left; reflexivity).
    rewrite IH; [rewrite <- app_assoc; reflexivity | assumption | assumption |].
    intros k' Hin Hd'. unfold keys in Hd'. rewrite map_app in Hd'.
    apply in_app_or in Hd' as [Hd'|[Hd'|[]]].
    + apply (Hfresh k'); [right; exact Hin | exact Hd'].
    + simpl in Hd'. subst. tauto.
Qed.

(** The parser on a name whose parts end in a run of parts with a colon. *)
Lemma parse_decomposed name kept p stripped :
  split_dunder name = (kept ++ p :: stripped)%list ->
  contains_colon p = false ->
  Forall has_colon stripped ->
  parse_metric_modifiers name =
  Ok (join_dunder (kept ++ [p]), rev (fold_left collect (rev stripped) [])).
Proof.
  intros Hsplit Hp Hs. unfold parse_metric_modifiers. rewrite Hsplit.
  rewrite rev_app_distr. simpl rev. rewrite <- app_assoc. simpl app.
  rewrite pop_modifiers_run by (apply Forall_rev; exact Hs).
  rewrite pop_modifiers_stop by exact Hp. simpl bind.
  rewrite comprehension_reversed by (apply NoDup_collect; constructor).
  simpl. rewrite rev_involutive. reflexivity.
Qed.

(** the parts of a name either all have a colon, or end in a run of parts
    with a colon that follows a part without *)
Lemma last_plain_part (l : list string) :
  Forall has_colon l \/
  exists kept p stripped,
    l = (kept ++ p :: stripped)%list /\ contains_colon p = false
    /\ Forall has_colon stripped.
Proof.
  induction l as [|a l [IH|(kept & p & stripped & -> & Hp & Hs)]].
  - left. constructor.
  - destruct (contains_colon a) eqn:Ha.
    + left. constructor; assumption.
    + right. exists [], a, l. auto.
  - right. exists (a :: kept), p, stripped. auto.
Qed.

(** The parser raises exactly on the names all of whose parts have a
    colon, and then it raises [IndexError]. *)
Lemma parse_raises_iff name :
  (exists e, parse_metric_modifiers name = Raise e)
  <-> Forall has_colon (split_dunder name).
Proof.
  split.
  - intros [e He].
    destruct (last_plain_part (split_dunder name))
      as [H|(kept & p & stripped & Hl & Hp & Hs)]; [exact H|].
    rewrite (parse_decomposed name kept p stripped Hl Hp Hs) in He.
    discriminate.
  - intros H. exists IndexError. unfold parse_metric_modifiers.
    rewrite pop_modifiers_exhausts by (apply Forall_rev; exact H).
    reflexivity.
Qed.

Lemma split_build b segs :
  Forall (fun s => contains_dunder s = false) segs ->
  Forall (fun s => ends_us (last_part s) = false) (removelast (b :: segs)) ->
  split_dunder (join_dunder (b :: segs)) = (split_dunder b ++ segs)%list.
Proof.
  revert b. induction segs as [|s segs IH]; intros b Hnd Hends.
  - simpl. rewrite app_nil_r. reflexivity.
  - rewrite join_cons by discriminate.
    change (removelast (b :: s :: segs)) with (b :: removelast (s :: segs)) in Hends.
    inversion Hends as [|? ? Hb Hrest]; subst.
    inversion Hnd as [|? ? Hs Hsegs]; subst.
    rewrite split_dunder_app by exact Hb.
    rewrite IH by assumption.
    rewrite (split_no_dunder s) by exact Hs. reflexivity.
Qed.

End ParserFacts.

(** ** Claims on the parser *)

Module ParserClaims.
Import PyStr PyDict Parser PyStrFacts PyDictFacts ParserFacts.
Local Open Scope string_scope.

(** C1.  The claim is that parsing returns a pair for every name.  The
    program does not: on the name ["a:b"], whose only part has a colon,
    the loop pops that part and then indexes the empty list, which raises
    [IndexError]. *)
Theorem parse_lone_modifier_raises :
  parse_metric_modifiers "a:b" = Raise IndexError.
Proof. reflexivity. Qed.

(** a name whose last part has no colon is its own base, and has no
    modifiers *)
Lemma parse_plain name :
  contains_colon (last_part name) = false ->
  parse_metric_modifiers name = Ok (name, []).
Proof.
  intros H.
  rewrite (parse_decomposed name (removelast (split_dunder name))
             (last_part name) []).
  - unfold last_part.
    rewrite <- (app_removelast_last "" (split_dunder_nonempty name)).
    rewrite join_split. reflexivity.
  - apply (app_removelast_last "" (split_dunder_nonempty name)).
  - exact H.
  - constructor.
Qed.

Example parse_scenario :
  parse_metric_modifiers "cell_count__corner:ss_100C_1v60__stage:globalroute"
  = Ok ("cell_count", [("corner", "ss_100C_1v60"); ("stage", "globalroute")]).
Proof. reflexivity. Qed.

Example parse_value_with_colons :
  parse_metric_modifiers "m__k:a:b" = Ok ("m", [("k", "a:b")]).
Proof. reflexivity. Qed.

Example parse_every_part_a_modifier :
  parse_metric_modifiers "k:1__j:2" = Raise IndexError.
Proof. reflexivity. Qed.

(** C4, as stated, fails: the part ["k: v"] has a colon and is not accepted
    by the pattern (a blank follows the colon), and the parser strips it as
    a modifier all the same. *)
Lemma strips_by_pattern_fails :
  modifier_rx "k: v" = false
  /\ parse_metric_modifiers "x__k: v" = Ok ("x", [("k", " v")])
  /\ ~ strips_by_pattern "x__k: v".
Proof.
  split; [reflexivity|]. split; [reflexivity|].
  intros H.
  destruct (H ["x"] "k: v" [] eq_refl eq_refl (Forall_nil _)) as [m Hm].
  vm_compute in Hm. discriminate Hm.
Qed.

(** C4, amended.  A trailing part is stripped as a modifier exactly when
    it contains a colon: when the parts of a name end in a run [stripped]
    of parts with a colon that follows a part [p] without, the scan stops
    at [p], the base is all the parts up to and including [p] joined
    again, every stripped part leaves its key in the mapping, and every
    entry of the mapping spells a stripped part. *)
Theorem strips_parts_with_colon name kept p stripped :
  split_dunder name = (kept ++ p :: stripped)%list ->
  contains_colon p = false ->
  Forall has_colon stripped ->
  exists modifiers,
    parse_metric_modifiers name = Ok (join_dunder (kept ++ [p]), modifiers)
    /\ (forall part, In part stripped ->
          exists k v, part = k ++ ":" ++ v /\ contains_colon k = false
                      /\ In k (keys modifiers))
    /\ (forall k v, In (k, v) modifiers -> In (k ++ ":" ++ v) stripped).
Proof.
  intros Hsplit Hp Hs.
  exists (rev (fold_left collect (rev stripped) [])). split; [|split].
  - apply parse_decomposed; assumption.
  - intros part Hin.
    destruct (collect_complete (rev stripped) [] part) as (k & v & H1 & H2 & H3).
    + apply Forall_rev. exact Hs.
    + apply in_rev in Hin. exact Hin.
    + exists k, v. repeat split; auto. unfold keys in *.
      rewrite map_rev. apply in_rev. rewrite rev_involutive. exact H3.
  - intros k v Hin. apply in_rev in Hin.
    apply collect_sound in Hin as [[]|Hin]. apply in_rev. exact Hin.
Qed.

Lemma strips_parts_with_colon_witness :
  split_dunder "design__x__a:1__b:2" = (["design"] ++ "x" :: ["a:1"; "b:2"])%list
  /\ contains_colon "x" = false
  /\ Forall has_colon ["a:1"; "b:2"]
  /\ exists modifiers,
       parse_metric_modifiers "design__x__a:1__b:2"
       = Ok (join_dunder (["design"] ++ ["x"]), modifiers)
       /\ (forall part, In part ["a:1"; "b:2"] ->
             exists k v, part = k ++ ":" ++ v /\ contains_colon k = false
                         /\ In k (keys modifiers))
       /\ (forall k v, In (k, v) modifiers -> In (k ++ ":" ++ v) ["a:1"; "b:2"]).
Proof.
  assert (Forall has_colon ["a:1"; "b:2"]) as H
      by (repeat constructor).
  split; [reflexivity|]. split; [reflexivity|]. split; [exact H|].
  apply (strips_parts_with_colon "design__x__a:1__b:2" ["design"] "x"
           ["a:1"; "b:2"] eq_refl eq_refl H).
Defined.

Lemma all_chars_no_colon s :
  all_chars word_or_hyphen s = true -> contains_colon s = false.
Proof.
  induction s as [|c s IH]; [reflexivity|]. simpl.
  intros H. apply andb_true_iff in H as [Hc Hs]. rewrite (IH Hs), orb_false_r.
  unfold is_colon. destruct (Ascii.eqb c ":") eqn:E; [|reflexivity].
  apply Ascii.eqb_eq in E. subst c. discriminate Hc.
Qed.

(** the key of a segment that the pattern accepts has no colon *)
Lemma well_formed_key kv : well_formed kv -> contains_colon (fst kv) = false.
Proof.
  destruct kv as [k v]. unfold well_formed, modifier_rx, segment. simpl.
  intros H. destruct (contains_colon k) eqn:Hk; [|reflexivity].
  destruct (split_colon1_some k Hk) as (k1 & k2 & _ & -> & Hk1).
  rewrite append_assoc in H. simpl in H.
  pose proof (split_colon1_segment k1 (k2 ++ ":" ++ v) Hk1) as Hs.
  simpl in Hs. rewrite Hs in H.
  apply andb_true_iff in H as [_ H]. apply all_chars_no_colon in H.
  rewrite contains_colon_app in H. apply orb_false_iff in H as [_ H].
  discriminate H.
Qed.

(** C5, as stated, fails in three ways: a base that ends in an underscore
    lends it to the separator, a segment that contains the separator is
    cut in two, and of two segments with the same key one entry is left.
    Each of the segments is accepted by the pattern. *)
Lemma round_trip_fails :
  (Forall well_formed [("k", "v")] /\ ~ round_trip "m_" [("k", "v")]
   /\ parse_metric_modifiers (build_name "m_" [("k", "v")])
      = Ok ("m", [("_k", "v")]))
  /\ (Forall well_formed [("a__b", "c")] /\ ~ round_trip "m" [("a__b", "c")]
      /\ parse_metric_modifiers (build_name "m" [("a__b", "c")])
         = Ok ("m__a", [("b", "c")]))
  /\ (Forall well_formed [("k", "1"); ("k", "2")]
      /\ ~ round_trip "m" [("k", "1"); ("k", "2")]
      /\ parse_metric_modifiers (build_name "m" [("k", "1"); ("k", "2")])
         = Ok ("m", [("k", "1")])).
Proof.
  repeat split; try (repeat constructor; fail);
    unfold round_trip; vm_compute; discriminate.
Qed.

(** C5, amended.  The round trip holds for every base whose last part has
    no colon and every sequence of segments [key:value] whose keys are
    pairwise distinct and free of colons and which do not contain the
    separator, provided that neither the last part of the base nor any
    segment but the final one ends in an underscore.  The mapping comes
    back in the order of the segments. *)
Theorem round_trip_distinct_keys base modifiers :
  contains_colon (last_part base) = false ->
  Forall (fun kv => contains_colon (fst kv) = false
                    /\ contains_dunder (segment kv) = false) modifiers ->
  NoDup (map fst modifiers) ->
  Forall (fun s => ends_us (last_part s) = false)
         (removelast (base :: map segment modifiers)) ->
  round_trip base modifiers.
Proof.
  intros Hbase Hmods Hnd Hends. unfold round_trip, build_name.
  assert (split_dunder (join_dunder (base :: map segment modifiers))
          = (removelast (split_dunder base) ++
             last_part base :: map segment modifiers)%list) as Hsplit.
  { rewrite split_build; [| |exact Hends].
    - rewrite (app_removelast_last "" (split_dunder_nonempty base)) at 1.
      rewrite <- app_assoc. reflexivity.
    - apply Forall_map. eapply Forall_impl; [|exact Hmods].
      intros kv [_ H]. exact H. }
  rewrite (parse_decomposed _ _ _ _ Hsplit Hbase).
  - unfold last_part.
    rewrite <- (app_removelast_last "" (split_dunder_nonempty base)).
    rewrite join_split. rewrite <- map_rev.
    rewrite collect_distinct.
    + simpl. rewrite rev_involutive. reflexivity.
    + rewrite map_rev. apply NoDup_rev. exact Hnd.
    + apply Forall_rev. eapply Forall_impl; [|exact Hmods].
      intros kv [H _]. exact H.
    + intros k _ [].
  - apply Forall_map. eapply Forall_impl; [|exact Hmods].
    intros [k v] _. unfold has_colon, segment. simpl.
    rewrite contains_colon_app. simpl. apply orb_true_r.
Qed.

Lemma round_trip_distinct_keys_witness :
  round_trip "cell_count" [("corner", "ss_100C_1v60"); ("stage", "globalroute")].
Proof.
  apply round_trip_distinct_keys.
  - reflexivity.
  - repeat constructor.
  - repeat constructor; simpl; intuition discriminate.
  - repeat constructor.
Defined.

End ParserClaims.

(** ** The aggregator *)

Module AggregatorFacts.
Import PyStr PyDict Parser Aggregator PyStrFacts PyDictFacts ParserFacts.
Local Open Scope string_scope.

Lemma join_tail b segs : join_dunder (b :: segs) = b ++ tail_text segs.
Proof.
  revert b. induction segs as [|s segs IH]; intros b.
  - simpl. rewrite append_nil_r. reflexivity.
  - rewrite join_cons by discriminate. rewrite IH. reflexivity.
Qed.

Lemma tail_text_app (a b : list string) :
  tail_text (a ++ b)%list = tail_text a ++ tail_text b.
Proof.
  induction a as [|s a IH]; [reflexivity|].
  simpl. rewrite IH, append_assoc. reflexivity.
Qed.

Lemma join_app l l' :
  l <> [] -> join_dunder (l ++ l')%list = join_dunder l ++ tail_text l'.
Proof.
  destruct l as [|b l]; [congruence|]. intros _.
  rewrite <- app_comm_cons, !join_tail, tail_text_app, append_assoc.
  reflexivity.
Qed.

Lemma build_name_app base (a b : list (string * string)) :
  build_name base (a ++ b)%list
  = build_name base a ++ tail_text (map segment b).
Proof.
  unfold build_name. rewrite !join_tail, map_app, tail_text_app, append_assoc.
  reflexivity.
Qed.

Lemma build_name_snoc base a k v :
  build_name base (a ++ [(k, v)])%list
  = build_name base a ++ "__" ++ k ++ ":" ++ v.
Proof.
  rewrite build_name_app. simpl. unfold segment. simpl.
  rewrite !append_assoc. simpl. rewrite append_nil_r. reflexivity.
Qed.

Lemma prefix_app a x : prefix a (a ++ x) = true.
Proof.
  induction a as [|c a IH]; [destruct x; reflexivity|]. simpl.
  destruct (ascii_dec c c); [exact IH | congruence].
Qed.

Ltac lengths :=
  repeat first [rewrite length_append in * | progress simpl in * ]; try lia.

Lemma weight_cons k v d :
  weight ((k, v) :: d) = 3 + String.length k + String.length v + weight d.
Proof.
  unfold weight, segment. lengths.
Qed.

Lemma weight_app (a b : dict string) :
  weight (a ++ b)%list = weight a + weight b.
Proof.
  unfold weight. rewrite map_app, tail_text_app, length_append. reflexivity.
Qed.

Lemma weight_rev d : weight (rev d) = weight d.
Proof.
  induction d as [|[k v] d IH]; [reflexivity|].
  simpl rev. rewrite weight_app, IH, !weight_cons. unfold weight. lengths.
Qed.

Lemma weight_set k v d :
  weight (set k v d) <= weight d + 3 + String.length k + String.length v.
Proof.
  induction d as [|[k' v'] d IH]; simpl set.
  - rewrite weight_cons. unfold weight. lengths.
  - destruct (String.eqb k k'); rewrite !weight_cons; lia.
Qed.

Lemma weight_collect l d :
  Forall has_colon l ->
  weight (fold_left collect l d) <= weight d + String.length (tail_text l).
Proof.
  intros H. revert d. induction H as [|part l Hp Hl IH]; intros d; simpl.
  - lia.
  - destruct (collect_colon d part Hp) as (k & v & Hpart & _ & Hc).
    rewrite Hc. specialize (IH (set k v d)).
    pose proof (weight_set k v d). subst part. lengths.
Qed.

Lemma weight_firstn j d : j < length d -> weight (firstn j d) < weight d.
Proof.
  revert j. induction d as [|[k v] d IH]; intros j Hj; simpl in Hj; [lia|].
  destruct j as [|j].
  - rewrite weight_cons. unfold weight. lengths.
  - simpl firstn. rewrite !weight_cons. specialize (IH j). lia.
Qed.

Lemma tail_text_rev_length l :
  String.length (tail_text (rev l)) = String.length (tail_text l).
Proof.
  induction l as [|s l IH]; [reflexivity|].
  simpl rev. rewrite tail_text_app. lengths.
Qed.

(** What a successful parse says of the name. *)
Lemma parse_ok_inv name base modifiers :
  parse_metric_modifiers name = Ok (base, modifiers) ->
  exists kept p stripped,
    split_dunder name = (kept ++ p :: stripped)%list
    /\ contains_colon p = false /\ Forall has_colon stripped
    /\ base = join_dunder (kept ++ [p])
    /\ modifiers = rev (fold_left collect (rev stripped) []).
Proof.
  intros H.
  destruct (last_plain_part (split_dunder name))
    as [Hall|(kept & p & stripped & Hl & Hp & Hs)].
  - assert (exists e, parse_metric_modifiers name = Raise e) as [e He]
        by (apply parse_raises_iff; exact Hall).
    congruence.
  - rewrite (parse_decomposed name kept p stripped Hl Hp Hs) in H.
    inversion H; subst. exists kept, p, stripped. auto.
Qed.

Lemma parse_ok_NoDup name base modifiers :
  parse_metric_modifiers name = Ok (base, modifiers) -> NoDup (keys modifiers).
Proof.
  intros H. apply parse_ok_inv in H as (kept & p & stripped & _ & _ & _ & _ & ->).
  unfold keys. rewrite map_rev. apply NoDup_rev.
  apply (NoDup_collect (rev stripped) []). constructor.
Qed.

(** the name is the base followed by the stripped parts, and the parsed
    modifiers spell no more text than the stripped parts *)
Lemma parse_ok_length name base modifiers :
  parse_metric_modifiers name = Ok (base, modifiers) ->
  String.length base + weight modifiers <= String.length name.
Proof.
  intros H. apply parse_ok_inv in H
    as (kept & p & stripped & Hl & Hp & Hs & -> & ->).
  rewrite <- (join_split name), Hl.
  replace (kept ++ p :: stripped)%list with ((kept ++ [p]) ++ stripped)%list
    by (rewrite <- app_assoc; reflexivity).
  rewrite (join_app (kept ++ [p]) stripped)
    by (intros E; apply app_eq_nil in E as [_ E]; discriminate E).
  rewrite length_append, weight_rev.
  pose proof (weight_collect (rev stripped) [] (Forall_rev Hs)) as Hw.
  rewrite tail_text_rev_length in Hw. unfold weight at 2 in Hw. simpl in Hw.
  lia.
Qed.

End AggregatorFacts.

Module AggregatorFrame.
Import PyStr PyDict Parser Aggregator PyStrFacts PyDictFacts ParserFacts
       AggregatorFacts.
Local Open Scope string_scope.

Section Frame.
Variable V : Type.
Variable truthy : V -> bool.
Implicit Types (agg : dict V) (rules : dict (registry_entry V)).

Lemma build_name_nil base : build_name base [] = base.
Proof. reflexivity. Qed.

(** the inner loop writes under the names spelt by the base and a proper
    initial run of the modifiers, and nowhere else *)
Lemma fold_prefixes_frame entry value base (todo done : dict string) agg agg' k :
  NoDup (keys (done ++ todo)%list) ->
  fold_prefixes V truthy entry value (done ++ todo)%list (keys todo)
    (build_name base done) agg = Ok agg' ->
  get k agg' <> get k agg ->
  exists j, j < length todo
            /\ k = build_name base (done ++ firstn j todo)%list.
Proof.
  revert done agg. induction todo as [|[m v] todo IH]; intros done agg Hnd Hf Hk.
  - simpl in Hf. inversion Hf; subst. congruence.
  - simpl in Hf. destruct entry as [start f].
    assert (item m (done ++ (m, v) :: todo)%list = Ok v) as Hitem.
    { unfold item. rewrite (get_in m v); [reflexivity | exact Hnd|].
      apply in_or_app. right. left. reflexivity. }
    rewrite Hitem in Hf. simpl in Hf.
    replace (done ++ (m, v) :: todo)%list
      with ((done ++ [(m, v)]) ++ todo)%list in Hf, Hnd
      by (rewrite <- app_assoc; reflexivity).
    pose proof (build_name_snoc base done m v) as Hsnoc. simpl in Hsnoc.
    rewrite <- Hsnoc in Hf.
    destruct (string_dec (build_name base done) k) as [E|E].
    + exists 0. split; [simpl; lia|]. simpl. rewrite app_nil_r. auto.
    + rewrite <- (get_set_neq _ _
          (f [or_start V truthy (get (build_name base done) agg) start; value])
          agg E) in Hk.
      destruct (IH _ _ Hnd Hf Hk) as (j & Hj & ->).
      exists (S j). split; [simpl; lia|]. simpl.
      rewrite <- app_assoc. reflexivity.
Qed.

Lemma fold_prefixes_total entry value modifiers names so_far agg :
  (forall m, In m names -> In m (keys modifiers)) ->
  exists agg', fold_prefixes V truthy entry value modifiers names so_far agg
               = Ok agg'.
Proof.
  revert so_far agg. induction names as [|m names IH]; intros so_far agg H.
  - exists agg. reflexivity.
  - simpl. destruct entry as [start f]. unfold item.
    destruct (get m modifiers) as [mv|] eqn:E.
    + simpl. apply IH. intros m' Hm'. apply H. right. exact Hm'.
    + apply get_none in E. exfalso. apply E, H. left. reflexivity.
Qed.

Lemma fold_prefixes_NoDup entry value modifiers names so_far agg agg' :
  fold_prefixes V truthy entry value modifiers names so_far agg = Ok agg' ->
  NoDup (keys agg) -> NoDup (keys agg').
Proof.
  revert so_far agg. induction names as [|m names IH]; intros so_far agg Hf Hnd.
  - inversion Hf; subst. exact Hnd.
  - simpl in Hf. destruct entry as [start f].
    destruct (item m modifiers) as [mv|e]; [|discriminate]. simpl in Hf.
    eapply IH; [exact Hf|]. apply NoDup_set, Hnd.
Qed.

(** the branches of [aggregate_item]: it leaves the accumulators alone,
    or it runs the inner loop over all the parsed modifiers *)
Lemma aggregate_item_cases rules agg name value agg' :
  aggregate_item V truthy rules agg name value = Ok agg' ->
  agg' = agg \/
  exists base modifiers entry,
    parse_metric_modifiers name = Ok (base, modifiers)
    /\ fold_prefixes V truthy entry value modifiers (keys modifiers) base agg
       = Ok agg'.
Proof.
  unfold aggregate_item.
  destruct (parse_metric_modifiers name) as [[base modifiers]|e] eqn:Hp;
    [|discriminate].
  simpl. destruct (Nat.ltb (length modifiers) 1); [intros [= <-]; auto|].
  destruct (match get base rules with
            | Some (MetricEntry m) =>
                (match dont_aggregate V m with Some l => l | None => [] end,
                 aggregator V m)
            | Some (AggregatorEntry a) => ([], Some a)
            | None => ([], None)
            end) as [dont [entry|]]; [|intros [= <-]; auto].
  destruct (intersects (keys modifiers) dont); [intros [= <-]; auto|].
  intros H. right. exists base, modifiers, entry. auto.
Qed.

Lemma aggregate_item_total rules agg name value r :
  parse_metric_modifiers name = Ok r ->
  exists agg', aggregate_item V truthy rules agg name value = Ok agg'.
Proof.
  intros Hp. unfold aggregate_item. rewrite Hp. destruct r as [base modifiers].
  simpl. destruct (Nat.ltb (length modifiers) 1); [eauto|].
  destruct (match get base rules with
            | Some (MetricEntry m) =>
                (match dont_aggregate V m with Some l => l | None => [] end,
                 aggregator V m)
            | Some (AggregatorEntry a) => ([], Some a)
            | None => ([], None)
            end) as [dont [entry|]]; [|eauto].
  destruct (intersects (keys modifiers) dont); [eauto|].
  apply fold_prefixes_total. auto.
Qed.

Lemma aggregate_item_NoDup rules agg name value agg' :
  aggregate_item V truthy rules agg name value = Ok agg' ->
  NoDup (keys agg) -> NoDup (keys agg').
Proof.
  intros H Hnd.
  apply aggregate_item_cases in H as [->|(b & m & e & _ & Hf)]; [exact Hnd|].
  eapply fold_prefixes_NoDup; eassumption.
Qed.

Lemma aggregate_items_NoDup rules items agg agg' :
  aggregate_items V truthy rules items agg = Ok agg' ->
  NoDup (keys agg) -> NoDup (keys agg').
Proof.
  revert agg. induction items as [|[name value] items IH]; intros agg H Hnd.
  - inversion H; subst. exact Hnd.
  - simpl in H.
    destruct (aggregate_item V truthy rules agg name value) as [agg1|e] eqn:E;
      [|discriminate].
    simpl in H. eapply IH; [exact H|]. eapply aggregate_item_NoDup; eassumption.
Qed.

(** the aggregator returns whenever every name of the input parses *)
Lemma aggregate_items_total rules items agg :
  Forall (fun kv => exists r, parse_metric_modifiers (fst kv) = Ok r) items ->
  exists agg', aggregate_items V truthy rules items agg = Ok agg'.
Proof.
  intros H. revert agg. induction H as [|[name value] items [r Hr] _ IH];
    intros agg.
  - exists agg. reflexivity.
  - simpl. destruct (aggregate_item_total rules agg name value r Hr) as [a Ha].
    rewrite Ha. simpl. apply IH.
Qed.

Lemma build_name_length base modifiers :
  String.length (build_name base modifiers)
  = String.length base + weight modifiers.
Proof.
  unfold build_name, weight. rewrite join_tail, length_append. reflexivity.
Qed.

End Frame.

End AggregatorFrame.

(** ** Order of the input

    What the order of the input can change is confined to line 108: when
    the reducer cannot tell a falsy accumulator from the initial one, and
    folds two values in either order alike, the aggregates do not depend
    on the order of the items. *)

Module AggregatorOrder.
Import PyStr PyDict Parser Aggregator PyStrFacts PyDictFacts ParserFacts
       AggregatorFacts AggregatorFrame.
Local Open Scope string_scope.

Section Uniform.
Variable V : Type.
Variable truthy : V -> bool.
Variable start : V.
Variable f : list V -> V.

(** a falsy accumulator folds like the initial one *)
Hypothesis f_falsy : forall w x, truthy w = false -> f [start; x] = f [w; x].
(** two values fold in either order alike *)
Hypothesis f_swap : forall a x y, f [f [a; x]; y] = f [f [a; y]; x].

Local Abbreviation into := (fold_into V truthy start f).
Local Abbreviation same := (same_lookups V).

Lemma same_refl a : same a a.
Proof. intros k. reflexivity. Qed.

Lemma same_trans a b c : same a b -> same b c -> same a c.
Proof. intros H1 H2 k. rewrite H1. apply H2. Qed.

Lemma or_start_stored w x :
  f [or_start V truthy (Some w) start; x] = f [w; x].
Proof.
  simpl. destruct (truthy w) eqn:E; [reflexivity | apply f_falsy, E].
Qed.

Lemma get_into_eq v a k :
  get k (into v a k) = Some (f [or_start V truthy (get k a) start; v]).
Proof. apply get_set_eq. Qed.

Lemma get_into_neq v a k k' : k <> k' -> get k' (into v a k) = get k' a.
Proof. apply get_set_neq. Qed.

Lemma into_same v a b k : same a b -> same (into v a k) (into v b k).
Proof.
  intros H k'. destruct (string_dec k k') as [<-|E].
  - rewrite !get_into_eq, H. reflexivity.
  - rewrite !get_into_neq by exact E. apply H.
Qed.

Lemma into_comm v w a k l :
  same (into v (into w a l) k) (into w (into v a k) l).
Proof.
  intros x. destruct (string_dec k l) as [<-|E].
  - destruct (string_dec k x) as [<-|Ex].
    + rewrite !get_into_eq, !or_start_stored. f_equal. apply f_swap.
    + rewrite !get_into_neq by exact Ex. reflexivity.
  - destruct (string_dec k x) as [<-|Ex].
    + rewrite get_into_eq, (get_into_neq w (into v a k) l k) by congruence.
      rewrite get_into_eq, (get_into_neq w a l k) by congruence. reflexivity.
    + rewrite (get_into_neq v (into w a l) k x) by exact Ex.
      destruct (string_dec l x) as [<-|El].
      * rewrite !get_into_eq, (get_into_neq v a k l) by exact E. reflexivity.
      * rewrite !get_into_neq by assumption. reflexivity.
Qed.

Lemma fold_into_same v ks a b :
  same a b -> same (fold_left (into v) ks a) (fold_left (into v) ks b).
Proof.
  revert a b. induction ks as [|k ks IH]; intros a b H; simpl; [exact H|].
  apply IH, into_same, H.
Qed.

Lemma fold_into_one v w ks a k :
  same (fold_left (into v) ks (into w a k))
       (into w (fold_left (into v) ks a) k).
Proof.
  revert a. induction ks as [|k1 ks IH]; intros a; simpl; [apply same_refl|].
  eapply same_trans; [|apply IH]. apply fold_into_same, into_comm.
Qed.

Lemma fold_into_comm v w ks ls a :
  same (fold_left (into v) ks (fold_left (into w) ls a))
       (fold_left (into w) ls (fold_left (into v) ks a)).
Proof.
  revert a. induction ls as [|l ls IH]; intros a; simpl; [apply same_refl|].
  eapply same_trans; [apply IH|]. apply fold_into_same, fold_into_one.
Qed.

(** the inner loop raises whatever the accumulators are, or it is a run
    of writes under names that do not depend on them *)
Lemma fold_prefixes_effect value modifiers names so_far :
  (exists e, forall agg,
      fold_prefixes V truthy (start, f) value modifiers names so_far agg
      = Raise e)
  \/ (exists ks, forall agg,
         fold_prefixes V truthy (start, f) value modifiers names so_far agg
         = Ok (fold_left (into value) ks agg)).
Proof.
  revert so_far. induction names as [|m names IH]; intros so_far.
  - right. exists []. reflexivity.
  - simpl. unfold item. destruct (get m modifiers) as [mv|].
    + destruct (IH (so_far ++ "__" ++ m ++ ":" ++ mv)) as [[e He]|[ks Hks]].
      * left. exists e. intros agg. apply He.
      * right. exists (so_far :: ks). intros agg. simpl. apply Hks.
    + left. exists KeyError. reflexivity.
Qed.

Variable rules : dict (registry_entry V).
Hypothesis rules_uniform : uniform V start f rules.

Lemma aggregate_item_effect name value :
  (exists e, forall agg,
      aggregate_item V truthy rules agg name value = Raise e)
  \/ (exists ks, forall agg,
         aggregate_item V truthy rules agg name value
         = Ok (fold_left (into value) ks agg)).
Proof.
  unfold aggregate_item.
  destruct (parse_metric_modifiers name) as [[base modifiers]|e];
    [|left; exists e; reflexivity].
  simpl. destruct (Nat.ltb (length modifiers) 1);
    [right; exists []; reflexivity|].
  pose proof (rules_uniform base) as Hu.
  destruct (get base rules) as [[a|m]|].
  - subst a. destruct (intersects (keys modifiers) []);
      [right; exists []; reflexivity|]. apply fold_prefixes_effect.
  - destruct Hu as [-> | ->].
    + right. exists []. reflexivity.
    + destruct (intersects (keys modifiers) _);
        [right; exists []; reflexivity|]. apply fold_prefixes_effect.
  - right. exists []. reflexivity.
Qed.

Lemma aggregate_items_same items a b ra :
  same a b ->
  aggregate_items V truthy rules items a = Ok ra ->
  exists rb, aggregate_items V truthy rules items b = Ok rb /\ same ra rb.
Proof.
  revert a b. induction items as [|[name value] items IH]; intros a b H Ha.
  - inversion Ha; subst. exists b. split; [reflexivity | exact H].
  - simpl in *.
    destruct (aggregate_item_effect name value) as [[e He]|[ks Hks]].
    + rewrite He in Ha. discriminate Ha.
    + rewrite Hks in *. simpl in *.
      eapply IH; [|exact Ha]. apply fold_into_same, H.
Qed.

(** the accumulators after a pass do not depend on the order of the
    items, as far as lookups can tell *)
Lemma aggregate_items_permutation items items' :
  Permutation items items' ->
  forall a b ra,
    same a b ->
    aggregate_items V truthy rules items a = Ok ra ->
    exists rb, aggregate_items V truthy rules items' b = Ok rb /\ same ra rb.
Proof.
  induction 1 as [|[name value] l l' Hp IH|[n1 v1] [n2 v2] l|l l' l'' H1 IH1 H2 IH2];
    intros a b ra H Ha.
  - inversion Ha; subst. exists b. split; [reflexivity | exact H].
  - simpl in *.
    destruct (aggregate_item_effect name value) as [[e He]|[ks Hks]].
    + rewrite He in Ha. discriminate Ha.
    + rewrite Hks in *. simpl in *.
      eapply IH; [|exact Ha]. apply fold_into_same, H.
  - simpl in Ha |- *.
    destruct (aggregate_item_effect n2 v2) as [[e2 He2]|[ks2 Hks2]];
      [rewrite He2 in Ha; discriminate Ha|].
    rewrite Hks2 in Ha. simpl in Ha.
    destruct (aggregate_item_effect n1 v1) as [[e1 He1]|[ks1 Hks1]];
      [rewrite He1 in Ha; discriminate Ha|].
    rewrite Hks1 in Ha. simpl in Ha.
    rewrite Hks1. simpl. rewrite Hks2. simpl.
    eapply aggregate_items_same; [|exact Ha].
    eapply same_trans; [apply fold_into_comm|].
    apply fold_into_same, fold_into_same, H.
  - destruct (IH1 a a ra (same_refl a) Ha) as (rm & Hm & Hsame).
    destruct (IH2 a b rm H Hm) as (rb & Hb & Hsame').
    exists rb. split; [exact Hb|]. eapply same_trans; eassumption.
Qed.

Lemma get_permutation (d d' : dict V) k :
  NoDup (keys d) -> Permutation d d' -> get k d = get k d'.
Proof.
  intros Hnd Hp.
  assert (NoDup (keys d')) as Hnd'.
  { unfold keys in *. eapply Permutation_NoDup; [|exact Hnd].
    apply Permutation_map, Hp. }
  destruct (get k d) as [v|] eqn:E.
  - symmetry. apply get_in; [exact Hnd'|].
    eapply Permutation_in; [exact Hp|]. apply get_some_in, E.
  - symmetry. apply get_none. apply get_none in E. intros Hin. apply E.
    unfold keys in *. eapply Permutation_in; [|exact Hin].
    apply Permutation_map, Permutation_sym, Hp.
Qed.

(** Under the two hypotheses on the reducer, and for a registry that
    holds the one rule, the snapshot that [aggregate_metrics] returns
    answers every lookup alike whatever the order of the input. *)
Lemma aggregate_metrics_permutation by_name (input input' : dict V) out :
  NoDup (keys input) ->
  Permutation input input' ->
  aggregate_metrics V truthy by_name input (Some rules) = Ok out ->
  exists out',
    aggregate_metrics V truthy by_name input' (Some rules) = Ok out'
    /\ same out out'.
Proof.
  intros Hnd Hp H. unfold aggregate_metrics in *.
  destruct (aggregate_items V truthy rules input []) as [agg|e] eqn:E;
    [|discriminate H].
  simpl in H. inversion H; subst.
  destruct (aggregate_items_permutation input input' Hp [] [] agg
              (same_refl []) E) as (agg' & E' & Hsame).
  rewrite E'. simpl. eexists. split; [reflexivity|].
  intros k. rewrite !get_update.
  - rewrite <- Hsame, (get_permutation input input' k Hnd Hp). reflexivity.
  - eapply aggregate_items_NoDup; [exact E' | constructor].
  - eapply aggregate_items_NoDup; [exact E | constructor].
Qed.

End Uniform.

Lemma int_sum_falsy w x : int_truthy w = false -> int_sum [0%Z; x] = int_sum [w; x].
Proof.
  unfold int_truthy, int_sum. intros H. apply negb_false_iff in H.
  apply Z.eqb_eq in H. subst w. reflexivity.
Qed.

Lemma int_sum_swap a x y :
  int_sum [int_sum [a; x]; y] = int_sum [int_sum [a; y]; x].
Proof. unfold int_sum. simpl. lia. Qed.

Lemma sum_rules_uniform : uniform Z 0%Z int_sum sum_rules.
Proof.
  intros base. unfold sum_rules. simpl.
  destruct (String.eqb base "m"); [reflexivity | exact I].
Qed.

(** the rule [(0, sum)] meets the hypotheses: the two orders of the items
    on which [(inf, min)] fails agree *)
Lemma sum_order_independent (input input' : dict Z) out :
  NoDup (keys input) ->
  Permutation input input' ->
  aggregate_metrics Z int_truthy [] input (Some sum_rules) = Ok out ->
  exists out',
    aggregate_metrics Z int_truthy [] input' (Some sum_rules) = Ok out'
    /\ same_lookups Z out out'.
Proof.
  apply (aggregate_metrics_permutation Z int_truthy 0%Z int_sum
           int_sum_falsy int_sum_swap sum_rules sum_rules_uniform).
Qed.

Example min_meets_swap_not_falsy :
  (forall a x y, num_min [num_min [a; x]; y] = num_min [num_min [a; y]; x])
  /\ num_truthy (Fin 0) = false
  /\ num_min [PosInf; Fin 5] <> num_min [Fin 0; Fin 5].
Proof.
  split; [|split; [reflexivity | discriminate]].
  intros a x y.
  destruct a as [|a|], x as [|x|], y as [|y|]; simpl; try reflexivity;
    repeat match goal with
           | |- context [Z.ltb ?p ?q] => destruct (Z.ltb_spec p q); simpl
           end; try reflexivity; try (f_equal; lia); try lia.
Qed.

End AggregatorOrder.

(** ** Claims on the aggregator *)

Module AggregatorClaims.
Import PyStr PyDict Parser Aggregator PyStrFacts PyDictFacts ParserFacts
       AggregatorFacts AggregatorFrame.
Local Open Scope string_scope.

(** a name whose stripped parts have pairwise distinct keys is spelt by
    its base and its parsed modifiers *)
Lemma parse_distinct_keys name kept p kvs :
  split_dunder name = (kept ++ p :: map segment kvs)%list ->
  contains_colon p = false ->
  Forall (fun kv => contains_colon (fst kv) = false) kvs ->
  NoDup (map fst kvs) ->
  parse_metric_modifiers name = Ok (join_dunder (kept ++ [p]), kvs)
  /\ name = build_name (join_dunder (kept ++ [p])) kvs.
Proof.
  intros Hsplit Hp Hk Hnd. split.
  - rewrite (parse_decomposed name kept p (map segment kvs) Hsplit Hp).
    + rewrite <- map_rev, collect_distinct.
      * simpl. rewrite rev_involutive. reflexivity.
      * rewrite map_rev. apply NoDup_rev. exact Hnd.
      * apply Forall_rev. exact Hk.
      * intros k _ [].
    + apply Forall_map. eapply Forall_impl; [|exact Hk].
      intros [k v] _. unfold has_colon, segment. simpl.
      rewrite contains_colon_app. simpl. apply orb_true_r.
  - unfold build_name. rewrite join_tail.
    rewrite <- (join_app (kept ++ [p]) (map segment kvs))
      by (intros E; apply app_eq_nil in E as [_ E]; discriminate E).
    rewrite <- app_assoc. simpl. rewrite <- Hsplit. symmetry. apply join_split.
Qed.

(** C2.  The claim is that a later fold applies the reducer to the stored
    accumulator whatever it is, zero included.  The program does not: with
    the rule [(inf, min)] and the accumulator [0] stored under ["m"],
    folding [5] stores [min([inf, 5]) = 5], where [min([0, 5])] is [0];
    the [or] of line 108 takes the stored zero for an absent value. *)
Theorem falsy_accumulator_is_reseeded :
  aggregate_item num num_truthy min_rules [("m", Fin 0)] "m__a:2" (Fin 5)
  = Ok [("m", Fin 5)]
  /\ num_min [Fin 0; Fin 5] = Fin 0
  /\ aggregate_metrics num num_truthy []
       [("m__a:1", Fin 0); ("m__a:2", Fin 5)] (Some min_rules)
     = Ok [("m__a:1", Fin 0); ("m__a:2", Fin 5); ("m", Fin 5)].
Proof. repeat split. Qed.

Lemma num_min_comm x y : num_min [x; y] = num_min [y; x].
Proof.
  destruct x as [|x|], y as [|y|]; simpl; try reflexivity.
  destruct (Z.ltb_spec y x), (Z.ltb_spec x y); try reflexivity; f_equal; lia.
Qed.

Lemma num_min_assoc x y z :
  num_min [num_min [x; y]; z] = num_min [x; num_min [y; z]].
Proof.
  destruct x as [|x|], y as [|y|], z as [|z|]; simpl; try reflexivity;
    repeat match goal with
           | |- context [Z.ltb ?a ?b] => destruct (Z.ltb_spec a b); simpl
           end; try reflexivity; try (f_equal; lia); try lia.
Qed.

(** C3.  The claim is that, for an associative and commutative reducer, the
    aggregate stored under a prefix does not depend on the order of the
    input.  The program does: [min] is associative and commutative, and
    the two orders of the same two items leave [5] and [0] under ["m"].
    The cause is the one of C2, a stored zero taken for an absent value. *)
Theorem aggregate_depends_on_order :
  let a := [("m__a:1", Fin 0); ("m__a:2", Fin 5)] in
  let b := [("m__a:2", Fin 5); ("m__a:1", Fin 0)] in
  Permutation a b
  /\ (forall x y, num_min [x; y] = num_min [y; x])
  /\ (forall x y z, num_min [num_min [x; y]; z] = num_min [x; num_min [y; z]])
  /\ exists out_a out_b,
       aggregate_metrics num num_truthy [] a (Some min_rules) = Ok out_a
       /\ aggregate_metrics num num_truthy [] b (Some min_rules) = Ok out_b
       /\ get "m" out_a = Some (Fin 5)
       /\ get "m" out_b = Some (Fin 0).
Proof.
  split; [apply perm_swap|]. split; [apply num_min_comm|].
  split; [apply num_min_assoc|].
  eexists. eexists. repeat split.
Qed.

(** C6, as stated, fails: the item ["m__k:1__j:2__k:3"] has the key [k]
    twice, its parsed modifiers are [j:2] and [k:1] in that order, and the
    aggregator writes under ["m__j:2"], which is no prefix of the name. *)
Lemma writes_strict_prefixes_fails :
  aggregate_item num num_truthy min_rules [] "m__k:1__j:2__k:3" (Fin 7)
  = Ok [("m", Fin 7); ("m__j:2", Fin 7)]
  /\ prefix "m__j:2" "m__k:1__j:2__k:3" = false
  /\ ~ writes_strict_prefixes num num_truthy min_rules "m__k:1__j:2__k:3" (Fin 7).
Proof.
  split; [reflexivity|]. split; [reflexivity|]. intros H.
  destruct (H [] [("m", Fin 7); ("m__j:2", Fin 7)] "m__j:2") as [Hp _].
  - reflexivity.
  - discriminate.
  - discriminate Hp.
Qed.

Section Overlay.
Variable V : Type.
Variable truthy : V -> bool.
Variable Metric_by_name : dict (registry_entry V).

(** C6, amended.  The snapshot returned is the input overlaid with the
    aggregates, the aggregates taking precedence and every other key
    keeping its value.  Processing one item writes only under names
    spelt by its base and a proper initial run of its parsed modifiers;
    such a name is shorter than the item's name, hence never the name
    itself, and it is a strict prefix of the item's name whenever base
    and parsed modifiers spell that name, as they do when the keys of
    its modifier parts are pairwise distinct. *)
Theorem aggregate_overlays_and_frames (input : dict V)
    (aggregator_by_metric : option (dict (registry_entry V))) :
  let registry := match aggregator_by_metric with
                  | None => Metric_by_name
                  | Some r => r
                  end in
  (forall out,
      aggregate_metrics V truthy Metric_by_name input aggregator_by_metric
      = Ok out ->
      exists aggregated,
        aggregate_items V truthy registry input [] = Ok aggregated
        /\ out = update input aggregated
        /\ forall k, get k out = match get k aggregated with
                                 | Some v => Some v
                                 | None => get k input
                                 end)
  /\ (forall aggregated name value aggregated' k,
        aggregate_item V truthy registry aggregated name value
        = Ok aggregated' ->
        get k aggregated' <> get k aggregated ->
        exists base modifiers j,
          parse_metric_modifiers name = Ok (base, modifiers)
          /\ j < length modifiers
          /\ k = build_name base (firstn j modifiers)
          /\ String.length k < String.length name
          /\ k <> name
          /\ (name = build_name base modifiers -> prefix k name = true)).
Proof.
  intros registry. split.
  - intros out H. unfold aggregate_metrics in H. fold registry in H.
    destruct (aggregate_items V truthy registry input []) as [aggregated|e]
      eqn:E; [|discriminate].
    simpl in H. inversion H; subst. exists aggregated.
    split; [reflexivity|]. split; [reflexivity|].
    intros k. apply get_update.
    eapply aggregate_items_NoDup; [exact E | constructor].
  - intros aggregated name value aggregated' k Hitem Hk.
    apply aggregate_item_cases in Hitem
      as [->|(base & modifiers & entry & Hp & Hf)]; [congruence|].
    pose proof (parse_ok_NoDup _ _ _ Hp) as Hnd.
    destruct (fold_prefixes_frame V truthy entry value base modifiers []
                aggregated aggregated' k Hnd Hf Hk) as (j & Hj & Hname).
    simpl in Hname.
    assert (String.length k < String.length name) as Hlen.
    { rewrite Hname, build_name_length.
      pose proof (weight_firstn j modifiers Hj).
      pose proof (parse_ok_length _ _ _ Hp). lia. }
    exists base, modifiers, j. repeat split; auto.
    + intros ->. lia.
    + intros Hspell. rewrite Hname, Hspell.
      rewrite <- (firstn_skipn j modifiers) at 2.
      rewrite build_name_app. apply prefix_app.
Qed.

End Overlay.

Lemma aggregate_overlays_and_frames_witness :
  let input := [("m__a:1__b:2", Fin 3); ("m", Fin 9); ("n", Fin 1)] in
  aggregate_metrics num num_truthy [] input (Some min_rules)
  = Ok [("m__a:1__b:2", Fin 3); ("m", Fin 3); ("n", Fin 1); ("m__a:1", Fin 3)]
  /\ (exists aggregated,
        aggregate_items num num_truthy min_rules input [] = Ok aggregated
        /\ [("m__a:1__b:2", Fin 3); ("m", Fin 3); ("n", Fin 1); ("m__a:1", Fin 3)]
           = update input aggregated
        /\ forall k,
             get k [("m__a:1__b:2", Fin 3); ("m", Fin 3); ("n", Fin 1);
                    ("m__a:1", Fin 3)]
             = match get k aggregated with
               | Some v => Some v
               | None => get k input
               end)
  /\ (exists base modifiers j,
        parse_metric_modifiers "m__a:1__b:2" = Ok (base, modifiers)
        /\ j < length modifiers
        /\ "m__a:1" = build_name base (firstn j modifiers)
        /\ String.length "m__a:1" < String.length "m__a:1__b:2"
        /\ "m__a:1" <> "m__a:1__b:2"
        /\ ("m__a:1__b:2" = build_name base modifiers
            -> prefix "m__a:1" "m__a:1__b:2" = true)).
Proof.
  intros input.
  destruct (aggregate_overlays_and_frames num num_truthy [] input
              (Some min_rules)) as [H1 H2].
  split; [reflexivity|]. split.
  - apply H1. reflexivity.
  - apply (H2 [] "m__a:1__b:2" (Fin 3) [("m", Fin 3); ("m__a:1", Fin 3)]).
    + reflexivity.
    + discriminate.
Defined.

End AggregatorClaims.

(** ** The table and the statistics *)

Module MetricDiffFacts.
Import PyStr PyDict Parser MetricDiff PyStrFacts.
Import TableVerbosity.
Local Open Scope string_scope.

Lemma fold_lines rows head :
  fold_left (fun table row => table ++ row_line row) rows head
  = head ++ lines_text (map row_line rows).
Proof.
  revert head. induction rows as [|r rows IH]; intros head; simpl.
  - rewrite append_nil_r. reflexivity.
  - rewrite IH, append_assoc. reflexivity.
Qed.

(** the table is the heading and one line for each listed result, or
    nothing when no result is listed *)
Lemma table_of_rows rows :
  table_of rows = match rows with
                  | [] => ""
                  | _ => heading ++ lines_text (map row_line rows)
                  end.
Proof.
  unfold table_of. destruct rows as [|r rows]; [reflexivity|].
  simpl length. simpl Nat.ltb. cbv iota. apply fold_lines.
Qed.

Lemma table_of_nonempty rows :
  rows <> [] -> table_of rows = heading ++ lines_text (map row_line rows).
Proof.
  intros H. rewrite table_of_rows. destruct rows; [congruence | reflexivity].
Qed.

Lemma lines_text_app a b : lines_text (a ++ b)%list = lines_text a ++ lines_text b.
Proof.
  induction a as [|l a IH]; [reflexivity|].
  simpl. rewrite IH, append_assoc. reflexivity.
Qed.

(** the rows listed at one verbosity, in terms of the buckets *)
Lemma listed_critical b : listed b CRITICAL = MetricDiff.critical b.
Proof. reflexivity. Qed.

Lemma listed_worse b :
  listed b WORSE = (MetricDiff.critical b ++ MetricDiff.worse b)%list.
Proof. reflexivity. Qed.

Lemma listed_changed b :
  listed b CHANGED
  = ((MetricDiff.critical b ++ MetricDiff.worse b) ++ MetricDiff.changed b)%list.
Proof. reflexivity. Qed.

Lemma listed_all b :
  listed b ALL
  = (((MetricDiff.critical b ++ MetricDiff.worse b) ++ MetricDiff.changed b)
     ++ MetricDiff.remaining b)%list.
Proof. reflexivity. Qed.

Lemma listed_none b : listed b NONE = [].
Proof. reflexivity. Qed.

(** sorting does not look at the verbosity: the rows listed at any two
    verbosities come from the same buckets *)
Lemma listed_differences_buckets self sort_by :
  (exists e, forall v, listed_differences self sort_by v = Raise e)
  \/ exists b, forall v, listed_differences self sort_by v = Ok (listed b v).
Proof.
  unfold listed_differences.
  destruct (match sort_by with
            | Some (f :: fs) => sorted_by_key (f :: fs) (differences self)
            | _ => Ok (differences self)
            end) as [rows|e].
  - right. eexists. intros v. reflexivity.
  - left. exists e. intros v. reflexivity.
Qed.

Lemma stats_counts rows s0 :
  let s := fold_left count_row rows s0 in
  S.better s + S.worse s + S.unchanged s + length (filter undetermined rows)
  = S.better s0 + S.worse s0 + S.unchanged s0 + length rows
  /\ S.critical s = S.critical s0 + length (filter R.critical rows).
Proof.
  revert s0. induction rows as [|r rows IH]; intros s0; simpl.
  - lia.
  - specialize (IH (count_row s0 r)). simpl in IH.
    destruct IH as [IH1 IH2]. rewrite IH2.
    unfold undetermined in *. unfold count_row in *.
    destruct (R.is_changed r), (R.better r) as [[|]|], (R.critical r);
      simpl in *; lia.
Qed.

Lemma filter_length_le {A} (f : A -> bool) l : length (filter f l) <= length l.
Proof.
  induction l as [|a l IH]; simpl; [lia|]. destruct (f a); simpl; lia.
Qed.

Lemma determinate_filter rows :
  Forall determinate rows -> filter undetermined rows = [].
Proof.
  induction 1 as [|r rows Hr _ IH]; [reflexivity|]. simpl. rewrite IH.
  unfold undetermined. destruct Hr as [Hr|Hr].
  - rewrite Hr. reflexivity.
  - destruct (R.better r); [|congruence]. rewrite andb_false_r. reflexivity.
Qed.

End MetricDiffFacts.

(** ** Claims on the table and the statistics *)

Module MetricDiffClaims.
Import PyStr PyDict Parser MetricDiff PyStrFacts MetricDiffFacts.
Import TableVerbosity.
Local Open Scope string_scope.

(** C7.  For every result set and sort order: the verbosity [NONE] renders
    the empty text; a verbosity at which no result is listed renders the
    empty text, without heading; and either sorting raises, at every
    verbosity alike, or the three verbosities list rows, each table being
    the heading and the lines of its rows, such that the rows and the
    lines at [CRITICAL] are among those at [WORSE], which are among those
    at [CHANGED]. *)
Theorem verbosity_inclusion self sort_by :
  render_md self sort_by NONE = Ok ""
  /\ (forall v, listed_differences self sort_by v = Ok [] ->
                render_md self sort_by v = Ok "")
  /\ ((exists e, forall v, listed_differences self sort_by v = Raise e)
      \/ exists rc rw rch,
           listed_differences self sort_by CRITICAL = Ok rc
           /\ listed_differences self sort_by WORSE = Ok rw
           /\ listed_differences self sort_by CHANGED = Ok rch
           /\ render_md self sort_by CRITICAL = Ok (table_of rc)
           /\ render_md self sort_by WORSE = Ok (table_of rw)
           /\ render_md self sort_by CHANGED = Ok (table_of rch)
           /\ incl rc rw /\ incl rw rch
           /\ incl (map row_line rc) (map row_line rw)
           /\ incl (map row_line rw) (map row_line rch)).
Proof.
  split; [reflexivity|]. split.
  - intros v H. unfold render_md. rewrite H. destruct v; reflexivity.
  - destruct (listed_differences_buckets self sort_by) as [He|[b Hb]];
      [left; exact He|].
    right. exists (listed b CRITICAL), (listed b WORSE), (listed b CHANGED).
    unfold render_md. rewrite !Hb. simpl bind.
    rewrite listed_critical, listed_worse, listed_changed.
    repeat split; try reflexivity.
    + apply incl_appl, incl_refl.
    + apply incl_appl, incl_refl.
    + rewrite map_app. apply incl_appl, incl_refl.
    + rewrite (map_app _ (_ ++ _)%list). apply incl_appl, incl_refl.
Qed.

Example render_sorted_by_base :
  listed_differences
    {| differences := [sample_row "b__k:2" false None false;
                       sample_row "a__k:1" false None false;
                       sample_row "b__k:1" false None false] |}
    (Some [""; "k"]) ALL
  = Ok [sample_row "a__k:1" false None false;
        sample_row "b__k:1" false None false;
        sample_row "b__k:2" false None false].
Proof. reflexivity. Qed.

Example render_sort_raises :
  render_md {| differences := [sample_row "k:1" false None false] |}
    (Some [""]) ALL
  = Raise IndexError.
Proof. reflexivity. Qed.

Example render_buckets_in_order :
  listed_differences
    {| differences := [sample_row "u" false None false;
                       sample_row "c" false (Some true) true;
                       sample_row "w" false (Some false) true;
                       sample_row "x" true (Some false) true] |}
    None ALL
  = Ok [sample_row "x" true (Some false) true;
        sample_row "w" false (Some false) true;
        sample_row "c" false (Some true) true;
        sample_row "u" false None false].
Proof. reflexivity. Qed.

Lemma verbosity_inclusion_witness :
  let self := {| differences := [sample_row "n" false None false] |} in
  listed_differences self None WORSE = Ok []
  /\ render_md self None WORSE = Ok "".
Proof.
  intros self. split; [reflexivity|].
  apply (verbosity_inclusion self None). reflexivity.
Defined.

(** C8.  When every result is unchanged or has a determinate flag
    [better], the counters [better], [worse] and [unchanged] add up to the
    number of results; and for every collection the counter [critical] is
    at most the number of results. *)
Theorem stats_partition self :
  (Forall determinate (differences self) ->
   S.better (stats self) + S.worse (stats self) + S.unchanged (stats self)
   = length (differences self))
  /\ S.critical (stats self) <= length (differences self).
Proof.
  unfold stats.
  destruct (stats_counts (differences self) S.init) as [H1 H2]. simpl in H1, H2.
  split.
  - intros Hd. rewrite (determinate_filter _ Hd) in H1. simpl in H1. lia.
  - rewrite H2. apply filter_length_le.
Qed.

Lemma stats_partition_witness :
  let self := {| differences := [sample_row "a" true (Some true) true;
                                 sample_row "b" false None false;
                                 sample_row "c" false (Some false) true] |} in
  Forall determinate (differences self)
  /\ S.better (stats self) + S.worse (stats self) + S.unchanged (stats self)
     = length (differences self).
Proof.
  intros self.
  assert (Forall determinate (differences self)) as H.
  { apply Forall_cons; [right; discriminate|].
    apply Forall_cons; [left; reflexivity|].
    apply Forall_cons; [right; discriminate|]. apply Forall_nil. }
  split; [exact H|]. apply (stats_partition self). exact H.
Defined.

(** C10.  With no hypothesis on the flags, the counters [better], [worse]
    and [unchanged] fall short of the number of results by exactly the
    number of changed results whose flag [better] is undetermined; such a
    result moves no counter but, when it is critical, [critical]. *)
Theorem stats_shortfall self :
  S.better (stats self) + S.worse (stats self) + S.unchanged (stats self)
  + length (filter undetermined (differences self))
  = length (differences self)
  /\ S.better (stats self) + S.worse (stats self) + S.unchanged (stats self)
     <= length (differences self)
  /\ forall s name crit fv,
       count_row s {| R.metric_name := name; R.critical := crit;
                      R.better := None; R.is_changed := true;
                      R.format_values := fv |}
       = {| S.better := S.better s; S.worse := S.worse s;
            S.critical := S.critical s + (if crit then 1 else 0);
            S.unchanged := S.unchanged s |}.
Proof.
  unfold stats.
  destruct (stats_counts (differences self) S.init) as [H1 _]. simpl in H1.
  split; [exact H1|]. split; [lia|].
  intros [b w c u] name [|] fv; unfold count_row; simpl; f_equal; lia.
Qed.

(** C9, as stated, fails: an unchanged result that is not critical and
    whose flag [better] is true carries the glyph of an improvement, and
    the table shows it. *)
Lemma no_glyph_when_unchanged_fails :
  let row := sample_row "n" false (Some true) false in
  ~ no_glyph_when_unchanged row
  /\ emoji_of row = glyph_better
  /\ render_md {| differences := [row] |} None ALL
     = Ok (heading ++ "| " ++ ljust 70 "n" ++ " | " ++ ljust 10 "1" ++ " | "
           ++ ljust 10 "2" ++ " | " ++ ljust 20 ("+1" ++ glyph_better)
           ++ " |" ++ newline).
Proof.
  intros row. split; [|split; reflexivity].
  intros H. specialize (H eq_refl eq_refl). discriminate H.
Qed.

(** C9, amended.  For every rendered result that is unchanged and not
    critical, the glyph follows the flag [better] alone: none when it is
    undetermined, the glyph of an improvement when it is true, that of a
    worsening when it is false.  So such a result has no glyph exactly
    when its flag [better] is undetermined, and then its table line ends
    in the bare delta. *)
Theorem unchanged_glyph_follows_better self sort_by v rows row :
  listed_differences self sort_by v = Ok rows ->
  In row rows ->
  R.is_changed row = false ->
  R.critical row = false ->
  emoji_of row = match R.better row with
                 | None => ""
                 | Some true => glyph_better
                 | Some false => glyph_worse
                 end
  /\ (emoji_of row = "" <-> R.better row = None)
  /\ (exists above below,
        render_md self sort_by v = Ok (above ++ row_line row ++ below))
  /\ (R.better row = None ->
      row_line row
      = "| " ++ ljust 70 (R.metric_name row) ++ " | "
        ++ ljust 10 (fst (fst (R.format_values row))) ++ " | "
        ++ ljust 10 (snd (fst (R.format_values row))) ++ " | "
        ++ ljust 20 (snd (R.format_values row)) ++ " |" ++ newline).
Proof.
  intros Hl Hin Hch Hcr.
  assert (emoji_of row = match R.better row with
                         | None => ""
                         | Some true => glyph_better
                         | Some false => glyph_worse
                         end) as He.
  { unfold emoji_of. rewrite Hcr. simpl. destruct (R.better row) as [[|]|];
      reflexivity. }
  split; [exact He|]. split; [|split].
  - rewrite He. destruct (R.better row) as [[|]|]; split; intros H;
      try reflexivity; discriminate H.
  - assert (render_md self sort_by v = Ok (table_of rows)) as ->.
    { unfold render_md. rewrite Hl. destruct v; try reflexivity.
      destruct (listed_differences_buckets self sort_by) as [[e He']|[b Hb]].
      - rewrite He' in Hl. discriminate Hl.
      - rewrite Hb, listed_none in Hl. inversion Hl; subst. destruct Hin. }
    apply in_split in Hin as (l1 & l2 & ->).
    exists (heading ++ lines_text (map row_line l1)),
           (lines_text (map row_line l2)).
    rewrite table_of_nonempty by (destruct l1; discriminate).
    rewrite map_app, lines_text_app. cbn [map lines_text].
    rewrite !append_assoc. reflexivity.
  - intros Hb. unfold row_line. rewrite He, Hb.
    destruct (R.format_values row) as [[before after] delta]. simpl.
    rewrite append_nil_r. reflexivity.
Qed.

Lemma unchanged_glyph_follows_better_witness :
  let row := sample_row "n" false None false in
  let self := {| differences := [row] |} in
  listed_differences self None ALL = Ok [row]
  /\ In row [row]
  /\ R.is_changed row = false
  /\ R.critical row = false
  /\ emoji_of row = ""
  /\ (emoji_of row = "" <-> R.better row = None).
Proof.
  intros row self.
  destruct (unchanged_glyph_follows_better self None ALL [row] row)
    as (H1 & H2 & _); try reflexivity; [left; reflexivity|].
  repeat split; try reflexivity; try (left; reflexivity); apply H2.
Defined.

End MetricDiffClaims.

(** * Further properties *)

(** ** The parser: errors, the base, repeated keys *)

Module ParserMore.
Import PyStr PyDict Parser Names PyStrFacts PyDictFacts ParserFacts
       AggregatorFacts.
Local Open Scope string_scope.

(** X1.  The parser raises nothing but [IndexError], and raises it exactly on
    the names all of whose parts have a colon. *)
Theorem parse_raises_only_index_error name :
  (forall e, parse_metric_modifiers name = Raise e -> e = IndexError)
  /\ (parse_metric_modifiers name = Raise IndexError
      <-> Forall has_colon (split_dunder name)).
Proof.
  assert (Forall has_colon (split_dunder name) ->
          parse_metric_modifiers name = Raise IndexError) as Hall.
  { intros H. unfold parse_metric_modifiers.
    rewrite pop_modifiers_exhausts by (apply Forall_rev; exact H).
    reflexivity. }
  split.
  - intros e He.
    destruct (last_plain_part (split_dunder name))
      as [H|(kept & p & stripped & Hl & Hp & Hs)].
    + rewrite (Hall H) in He. congruence.
    + rewrite (parse_decomposed name kept p stripped Hl Hp Hs) in He.
      discriminate He.
  - split; [|exact Hall]. intros H. apply parse_raises_iff.
    exists IndexError. exact H.
Qed.

Lemma hd_us_join q l :
  l <> [] ->
  hd_us (join_dunder (q :: l))
  = match q with EmptyString => true | String c _ => is_us c end.
Proof.
  intros H. rewrite join_cons by exact H. destruct q; reflexivity.
Qed.

Lemma starts_dunder_hd c s : starts_dunder (String c s) = is_us c && hd_us s.
Proof. destruct s; simpl; [rewrite andb_false_r|]; reflexivity. Qed.

(** a proper initial run of the parts of a text, joined again, splits
    into the same parts *)
Lemma split_join_prefix s :
  forall l1 l2,
    split_dunder s = (l1 ++ l2)%list -> l1 <> [] -> l2 <> [] ->
    split_dunder (join_dunder l1) = l1.
Proof.
  induction s using dunder_ind; intros l1 l2 Hs H1 H2.
  - simpl in Hs. destruct l1 as [|a l1]; [congruence|].
    inversion Hs as [[Ha Hrest]]. symmetry in Hrest.
    apply app_eq_nil in Hrest as [_ E]. congruence.
  - rewrite split_dunder_cut in Hs.
    destruct l1 as [|a l1]; [congruence|]. simpl in Hs. inversion Hs; subst.
    destruct l1 as [|b l1]; [reflexivity|].
    rewrite join_cons by discriminate.
    change ("" ++ "__" ++ join_dunder (b :: l1))
      with ("__" ++ join_dunder (b :: l1)).
    rewrite split_dunder_cut. f_equal.
    apply (IHs (b :: l1) l2); [assumption | discriminate | assumption].
  - rewrite split_dunder_step in Hs by assumption.
    pose proof (join_split s) as Hjoin.
    destruct (split_dunder s) as [|q qs] eqn:Eq;
      [exfalso; revert Eq; apply split_dunder_nonempty|].
    simpl in Hs. destruct l1 as [|a l1]; [congruence|].
    simpl in Hs. injection Hs as Ha Hqs. subst a.
    rewrite starts_dunder_hd in H.
    destruct l1 as [|b l1].
    + simpl in Hqs. subst qs.
      change (join_dunder [String c q]) with (String c q).
      assert (split_dunder q = [q]) as Hq.
      { apply (IHs [q] l2); [reflexivity | discriminate | exact H2]. }
      rewrite split_dunder_step, Hq; [reflexivity|].
      rewrite starts_dunder_hd. rewrite <- Hjoin, hd_us_join in H by exact H2.
      destruct q; [rewrite andb_false_r; reflexivity | exact H].
    + assert (split_dunder (join_dunder (q :: b :: l1)) = q :: b :: l1) as Hq.
      { apply (IHs (q :: b :: l1) l2); [|discriminate | exact H2].
        simpl. f_equal. exact Hqs. }
      rewrite join_cons by discriminate.
      change (String c q ++ "__" ++ join_dunder (b :: l1))
        with (String c (q ++ "__" ++ join_dunder (b :: l1))).
      rewrite <- (join_cons q (b :: l1)) by discriminate.
      rewrite split_dunder_step, Hq; [reflexivity|].
      rewrite starts_dunder_hd, hd_us_join by discriminate.
      rewrite <- Hjoin, hd_us_join in H; [exact H|].
      rewrite Hqs. discriminate.
Qed.

Lemma collect_nonempty l d :
  Forall has_colon l -> l <> [] -> fold_left collect l d <> [].
Proof.
  intros H Hne. destruct l as [|part l]; [congruence|].
  inversion H as [|? ? Hp Hl]; subst.
  destruct (collect_complete (part :: l) d part H (or_introl eq_refl))
    as (k & v & _ & _ & Hin).
  intros E. rewrite E in Hin. destruct Hin.
Qed.

(** X3.  The base that the parser returns is a prefix of the name and is the
    whole name exactly when there are no modifiers; base and modifiers
    together are no longer than the name; and the base is a name without
    modifiers of its own: parsing it gives it back, with an empty
    mapping. *)
Theorem parse_base_is_plain_prefix name base modifiers :
  parse_metric_modifiers name = Ok (base, modifiers) ->
  prefix base name = true
  /\ (modifiers = [] <-> base = name)
  /\ String.length base + weight modifiers <= String.length name
  /\ parse_metric_modifiers base = Ok (base, []).
Proof.
  intros H. pose proof (parse_ok_length _ _ _ H) as Hlen.
  pose proof H as Hinv.
  apply parse_ok_inv in Hinv as (kept & p & stripped & Hl & Hp & Hs & Hb & Hm).
  assert (kept ++ [p] <> [])%list as Hne
      by (intros E; apply app_eq_nil in E as [_ E]; discriminate E).
  assert (name = base ++ tail_text stripped) as Hname.
  { rewrite <- (join_split name), Hl, Hb.
    replace (kept ++ p :: stripped)%list with ((kept ++ [p]) ++ stripped)%list
      by (rewrite <- app_assoc; reflexivity).
    apply join_app, Hne. }
  split; [rewrite Hname; apply prefix_app|].
  destruct stripped as [|s0 stripped].
  - simpl in Hname, Hm. rewrite append_nil_r in Hname. subst modifiers.
    split; [split; auto|]. split; [exact Hlen|].
    rewrite Hname in H. exact H.
  - split; [|split; [exact Hlen|]].
    + split.
      * intros E. exfalso. rewrite E in Hm.
        apply (f_equal (@rev _)) in Hm. rewrite rev_involutive in Hm.
        apply (collect_nonempty (rev (s0 :: stripped)) []).
        -- apply Forall_rev. exact Hs.
        -- intros E'. apply (f_equal (@length _)) in E'.
           rewrite length_rev in E'. discriminate E'.
        -- symmetry. exact Hm.
      * intros E. exfalso. apply (f_equal String.length) in Hname.
        rewrite E, length_append in Hname. simpl in Hname. lia.
    + assert (split_dunder base = (kept ++ [p])%list) as Hsb.
      { rewrite Hb. apply (split_join_prefix name _ (s0 :: stripped)).
        - rewrite Hl, <- app_assoc. reflexivity.
        - exact Hne.
        - discriminate. }
      apply ParserClaims.parse_plain. unfold last_part.
      rewrite Hsb, last_last. exact Hp.
Qed.

(** X2.  The parser finds no modifiers exactly in the names whose last part
    has no colon, and then the base is the whole name. *)
Theorem parse_no_modifiers_iff name :
  (exists base, parse_metric_modifiers name = Ok (base, []))
  <-> contains_colon (last_part name) = false.
Proof.
  split.
  - intros [base H].
    apply parse_ok_inv in H as (kept & p & stripped & Hl & Hp & Hs & _ & Hm).
    destruct stripped as [|s0 stripped].
    + unfold last_part. rewrite Hl, last_last. exact Hp.
    + exfalso. apply (f_equal (@rev _)) in Hm. rewrite rev_involutive in Hm.
      apply (collect_nonempty (rev (s0 :: stripped)) []).
      * apply Forall_rev. exact Hs.
      * intros E'. apply (f_equal (@length _)) in E'.
        rewrite length_rev in E'. discriminate E'.
      * symmetry. exact Hm.
  - intros H. exists name. apply ParserClaims.parse_plain, H.
Qed.

Lemma parse_base_is_plain_prefix_witness :
  parse_metric_modifiers "design__x__a:1__b:2"
  = Ok ("design__x", [("a", "1"); ("b", "2")])
  /\ prefix "design__x" "design__x__a:1__b:2" = true
  /\ parse_metric_modifiers "design__x" = Ok ("design__x", []).
Proof.
  split; [reflexivity|].
  destruct (parse_base_is_plain_prefix "design__x__a:1__b:2" "design__x"
              [("a", "1"); ("b", "2")] eq_refl) as (H1 & _ & _ & H2).
  split; assumption.
Defined.

Lemma get_rev {A} (d : dict A) k : NoDup (keys d) -> get k (rev d) = get k d.
Proof.
  intros Hnd.
  assert (NoDup (keys (rev d))) as Hnd'
      by (unfold keys; rewrite map_rev; apply NoDup_rev, Hnd).
  destruct (get k d) as [v|] eqn:E.
  - apply get_in; [exact Hnd'|]. apply in_rev. rewrite rev_involutive.
    apply get_some_in, E.
  - apply get_none. apply get_none in E. intros Hin. apply E.
    unfold keys in *. rewrite map_rev in Hin. apply in_rev in Hin. exact Hin.
Qed.

Lemma keys_set_order {A} k (v : A) (d : dict A) :
  keys (set k v d)
  = if in_dec string_dec k (keys d) then keys d else (keys d ++ [k])%list.
Proof.
  unfold keys. induction d as [|[k' v'] d IH]; simpl.
  - reflexivity.
  - destruct (String.eqb k k') eqn:E.
    + apply String.eqb_eq in E. subst k'. simpl.
      destruct (string_dec k k); [|congruence].
      reflexivity.
    + apply String.eqb_neq in E. simpl. rewrite IH.
      destruct (string_dec k' k); [congruence|].
      destruct (in_dec string_dec k (map fst d)); reflexivity.
Qed.

(** the mapping built from segments: lookups go to the leftmost segment
    of the key, and the keys stand in the order of their rightmost
    segments *)
Lemma parsed_modifiers_spec kvs :
  Forall (fun kv => contains_colon (fst kv) = false) kvs ->
  NoDup (keys (parsed_modifiers kvs))
  /\ (forall k, get k (parsed_modifiers kvs) = get k kvs)
  /\ keys (parsed_modifiers kvs) = nodup string_dec (map fst kvs).
Proof.
  unfold parsed_modifiers.
  assert (forall l, NoDup (keys (rev (fold_left collect l [])))) as Hnd.
  { intros l. unfold keys. rewrite map_rev. apply NoDup_rev.
    apply (NoDup_collect l []). constructor. }
  induction 1 as [|[k v] kvs Hk Hkvs (IH1 & IH2 & IH3)].
  - repeat split; try reflexivity. constructor.
  - split; [apply Hnd|].
    simpl rev. rewrite map_app, fold_left_app. cbn [map fold_left].
    set (D := fold_left collect (map segment (rev kvs)) []) in *.
    assert (collect D (segment (k, v)) = set k v D) as ->.
    { unfold collect, segment. simpl fst in *. simpl snd.
      rewrite split_colon1_segment by exact Hk. reflexivity. }
    assert (NoDup (keys D)) as HD by (apply (NoDup_collect _ []); constructor).
    split.
    + intros k'. rewrite get_rev by (apply NoDup_set, HD). simpl.
      destruct (String.eqb k' k) eqn:E.
      * apply String.eqb_eq in E. subst k'. apply get_set_eq.
      * apply String.eqb_neq in E. rewrite get_set_neq by congruence.
        rewrite <- IH2. symmetry. apply get_rev, HD.
    + unfold keys in *. rewrite map_rev. 
      change (map fst (set k v D)) with (keys (set k v D)).
      rewrite keys_set_order. simpl.
      rewrite map_rev in IH3.
      destruct (in_dec string_dec k (keys D)) as [Hin|Hin];
        destruct (in_dec string_dec k (map fst kvs)) as [Hin'|Hin'].
      * exact IH3.
      * exfalso. apply Hin'. apply (nodup_In string_dec). rewrite <- IH3.
        apply in_rev. rewrite rev_involutive. exact Hin.
      * exfalso. apply Hin. apply in_rev. unfold keys. rewrite IH3.
        apply nodup_In. exact Hin'.
      * unfold keys. rewrite rev_app_distr. simpl. f_equal. exact IH3.
Qed.

(** X4.  When the same key stands in several modifier segments, the value of
    the leftmost one is kept, and the key takes the place of its rightmost
    segment: for a name whose parts end in the segments [kvs] after a
    part without colon, every lookup in the parsed mapping agrees with
    the lookup of the first fitting entry of [kvs], and the keys of the
    mapping are those of [kvs] with all but the last occurrence of each
    removed. *)
Theorem parse_repeated_keys name kept p kvs :
  split_dunder name = (kept ++ p :: map segment kvs)%list ->
  contains_colon p = false ->
  Forall (fun kv => contains_colon (fst kv) = false) kvs ->
  exists modifiers,
    parse_metric_modifiers name = Ok (join_dunder (kept ++ [p]), modifiers)
    /\ (forall k, get k modifiers = get k kvs)
    /\ keys modifiers = nodup string_dec (map fst kvs).
Proof.
  intros Hsplit Hp Hk. exists (parsed_modifiers kvs).
  destruct (parsed_modifiers_spec kvs Hk) as (_ & H2 & H3).
  split; [|split; assumption].
  rewrite (parse_decomposed name kept p (map segment kvs) Hsplit Hp).
  - unfold parsed_modifiers. rewrite map_rev. reflexivity.
  - apply Forall_map. eapply Forall_impl; [|exact Hk].
    intros [k v] _. unfold has_colon, segment. simpl.
    rewrite contains_colon_app. simpl. apply orb_true_r.
Qed.

Lemma parse_repeated_keys_witness :
  exists modifiers,
    parse_metric_modifiers "m__k:1__j:2__k:3" = Ok ("m", modifiers)
    /\ get "k" modifiers = Some "1"
    /\ keys modifiers = ["j"; "k"].
Proof.
  destruct (parse_repeated_keys "m__k:1__j:2__k:3" [] "m"
              [("k", "1"); ("j", "2"); ("k", "3")] eq_refl eq_refl)
    as (modifiers & H1 & H2 & H3).
  - repeat constructor.
  - exists modifiers. split; [exact H1|]. split.
    + rewrite H2. reflexivity.
    + rewrite H3. reflexivity.
Defined.

End ParserMore.

(** ** Sorting *)

Module SortingFacts.
Import PyStr PyDict Parser MetricDiff Sorting PyStrFacts ParserFacts.
Local Open Scope string_scope.

Lemma filter_none {A} (p : A -> bool) l :
  (forall w, In w l -> p w = false) -> filter p l = [].
Proof.
  induction l as [|a l IH]; intros H; [reflexivity|].
  simpl. rewrite (H a (or_introl eq_refl)). apply IH.
  intros w Hw. apply H. right. exact Hw.
Qed.

Section Generic.
Context {A : Type}.
Variable lt : A -> A -> bool.

Lemma insert_by_perm x l : Permutation (insert_by lt x l) (x :: l).
Proof.
  induction l as [|y l IH]; simpl; [reflexivity|].
  destruct (lt x y); [reflexivity|].
  rewrite IH. apply perm_swap.
Qed.

Lemma fold_insert_perm l acc :
  Permutation (fold_left (fun acc x => insert_by lt x acc) l acc) (l ++ acc)%list.
Proof.
  revert acc. induction l as [|x l IH]; intros acc; simpl; [reflexivity|].
  rewrite IH. rewrite insert_by_perm. symmetry. apply Permutation_middle.
Qed.

Lemma sorted_by_perm l : Permutation (sorted_by lt l) l.
Proof.
  unfold sorted_by. rewrite fold_insert_perm, app_nil_r. reflexivity.
Qed.

Hypothesis lt_asym : forall x y, lt x y = true -> lt y x = false.
Hypothesis lt_negtrans :
  forall x y z, lt x y = false -> lt y z = false -> lt x z = false.

Local Abbreviation le := (not_after lt).

Lemma lt_below x z l :
  lt x z = true -> Forall (le z) l -> Forall (fun w => lt x w = true) (z :: l).
Proof.
  intros Hxz Hl. constructor; [exact Hxz|].
  eapply Forall_impl; [|exact Hl]. intros w Hw. unfold le in Hw.
  destruct (lt x w) eqn:E; [reflexivity|].
  rewrite (lt_negtrans x w z E Hw) in Hxz. discriminate Hxz.
Qed.

Lemma insert_by_sorted x l :
  StronglySorted le l -> StronglySorted le (insert_by lt x l).
Proof.
  induction 1 as [|z l Hl IH Hz]; simpl.
  - constructor; constructor.
  - destruct (lt x z) eqn:E.
    + constructor; [constructor; assumption|].
      eapply Forall_impl; [|exact (lt_below x z l E Hz)].
      intros w Hw. apply lt_asym, Hw.
    + constructor; [exact IH|].
      eapply Permutation_Forall; [symmetry; apply insert_by_perm|].
      constructor; [exact E | exact Hz].
Qed.

Lemma fold_insert_sorted l acc :
  StronglySorted le acc ->
  StronglySorted le (fold_left (fun acc x => insert_by lt x acc) l acc).
Proof.
  revert acc. induction l as [|x l IH]; intros acc H; simpl; [exact H|].
  apply IH, insert_by_sorted, H.
Qed.

Lemma sorted_by_sorted l : StronglySorted le (sorted_by lt l).
Proof. apply fold_insert_sorted. constructor. Qed.

(** a class of elements none of which is less than another *)
Variable p : A -> bool.
Hypothesis p_class : forall x w, p x = true -> p w = true -> lt x w = false.

Lemma insert_by_stable x l :
  StronglySorted le l ->
  filter p (insert_by lt x l)
  = (filter p l ++ (if p x then [x] else []))%list.
Proof.
  induction 1 as [|z l Hl IH Hz]; simpl.
  - destruct (p x); reflexivity.
  - destruct (lt x z) eqn:E.
    + simpl. destruct (p x) eqn:Hpx.
      * assert (filter p (z :: l) = []) as Hnone.
        { apply filter_none. intros w Hw.
          pose proof (lt_below x z l E Hz) as Hall.
          rewrite Forall_forall in Hall. specialize (Hall w Hw).
          destruct (p w) eqn:Hpw; [|reflexivity].
          rewrite (p_class x w Hpx Hpw) in Hall. discriminate Hall. }
        simpl in Hnone. rewrite Hnone. reflexivity.
      * rewrite app_nil_r. reflexivity.
    + cbn [filter]. rewrite IH. destruct (p z); reflexivity.
Qed.

Lemma fold_insert_stable l acc :
  StronglySorted le acc ->
  filter p (fold_left (fun acc x => insert_by lt x acc) l acc)
  = (filter p acc ++ filter p l)%list.
Proof.
  revert acc. induction l as [|x l IH]; intros acc H; simpl.
  - rewrite app_nil_r. reflexivity.
  - rewrite IH by (apply insert_by_sorted, H).
    rewrite insert_by_stable by exact H. rewrite <- app_assoc.
    destruct (p x); reflexivity.
Qed.

Lemma sorted_by_stable l : filter p (sorted_by lt l) = filter p l.
Proof. unfold sorted_by. rewrite fold_insert_stable by constructor. reflexivity. Qed.

End Generic.

(** *** The order of texts and of keys *)

Lemma str_lt_iff a b :
  str_lt a b = true <-> OrderedTypeEx.String_as_OT.lt a b.
Proof.
  unfold str_lt. rewrite <- OrderedTypeEx.String_as_OT.cmp_lt.
  unfold OrderedTypeEx.String_as_OT.cmp.
  destruct (String.compare a b); split; congruence.
Qed.

Lemma str_lt_asym a b : str_lt a b = true -> str_lt b a = false.
Proof.
  unfold str_lt. rewrite (String.compare_antisym a b).
  destruct (String.compare b a); simpl; congruence.
Qed.

Lemma str_lt_total a b : str_lt a b = false -> str_lt b a = false -> a = b.
Proof.
  unfold str_lt. rewrite (String.compare_antisym a b).
  destruct (String.compare b a) eqn:E; simpl; try congruence.
  intros _ _. symmetry. apply String.compare_eq_iff. exact E.
Qed.

Lemma str_lt_trans a b c :
  str_lt a b = true -> str_lt b c = true -> str_lt a c = true.
Proof.
  rewrite !str_lt_iff. apply OrderedTypeEx.String_as_OT.lt_trans.
Qed.

Lemma str_lt_irrefl a : str_lt a a = false.
Proof.
  destruct (str_lt a a) eqn:E; [|reflexivity].
  rewrite (str_lt_asym a a E) in E. discriminate E.
Qed.

Lemma key_lt_irrefl a : key_lt a a = false.
Proof.
  induction a as [|x a IH]; [reflexivity|].
  simpl. rewrite String.eqb_refl. exact IH.
Qed.

Lemma key_lt_asym a b : key_lt a b = true -> key_lt b a = false.
Proof.
  revert b. induction a as [|x a IH]; intros [|y b]; simpl; try congruence.
  rewrite (String.eqb_sym y x). destruct (String.eqb x y); [apply IH|].
  apply str_lt_asym.
Qed.

Lemma key_lt_total a b : key_lt a b = false -> key_lt b a = false -> a = b.
Proof.
  revert b. induction a as [|x a IH]; intros [|y b]; simpl; try congruence.
  rewrite (String.eqb_sym y x). destruct (String.eqb x y) eqn:E.
  - apply String.eqb_eq in E. subst y. intros H1 H2. f_equal. apply IH; assumption.
  - intros H1 H2. apply String.eqb_neq in E. exfalso. apply E.
    apply str_lt_total; assumption.
Qed.

Lemma key_lt_trans a b c :
  key_lt a b = true -> key_lt b c = true -> key_lt a c = true.
Proof.
  revert b c. induction a as [|x a IH]; intros [|y b] [|z c]; simpl;
    try congruence.
  destruct (String.eqb x y) eqn:Exy.
  - apply String.eqb_eq in Exy. subst y.
    destruct (String.eqb x z); [apply IH | auto].
  - destruct (String.eqb y z) eqn:Eyz.
    + apply String.eqb_eq in Eyz. subst z. rewrite Exy. auto.
    + intros H1 H2. pose proof (str_lt_trans x y z H1 H2) as H3.
      destruct (String.eqb x z) eqn:Exz; [|exact H3].
      apply String.eqb_eq in Exz. subst z.
      rewrite (str_lt_asym x y H1) in H2. discriminate H2.
Qed.

Lemma key_lt_negtrans a b c :
  key_lt a b = false -> key_lt b c = false -> key_lt a c = false.
Proof.
  intros H1 H2. destruct (key_lt a c) eqn:E; [|reflexivity].
  destruct (key_lt b a) eqn:Eba.
  - rewrite (key_lt_trans b a c Eba E) in H2. discriminate H2.
  - rewrite (key_lt_total a b H1 Eba) in E. congruence.
Qed.

Lemma str_lt_negtrans a b c :
  str_lt a b = false -> str_lt b c = false -> str_lt a c = false.
Proof.
  intros H1 H2. destruct (str_lt a c) eqn:E; [|reflexivity].
  destruct (str_lt b a) eqn:Eba.
  - rewrite (str_lt_trans b a c Eba E) in H2. discriminate H2.
  - rewrite (str_lt_total a b H1 Eba) in E. congruence.
Qed.

Lemma insert_by_key_generic kx l :
  insert_by_key kx l = insert_by keyed_lt kx l.
Proof.
  induction l as [|ky l IH]; [reflexivity|].
  simpl. unfold keyed_lt at 1. rewrite IH. reflexivity.
Qed.

Lemma fold_insert_by_key ks acc :
  fold_left (fun acc kx => insert_by_key kx acc) ks acc
  = fold_left (fun acc kx => insert_by keyed_lt kx acc) ks acc.
Proof.
  revert acc. induction ks as [|kx ks IH]; intros acc; [reflexivity|].
  simpl. rewrite insert_by_key_generic. apply IH.
Qed.

Lemma strings_eqb_eq a b : strings_eqb a b = true <-> a = b.
Proof.
  unfold strings_eqb. destruct (list_eq_dec string_dec a b); split; congruence.
Qed.

Lemma key_from_metrics_cases fields metric :
  (Forall has_colon (split_dunder metric)
   /\ _key_from_metrics fields metric = Raise IndexError)
  \/ (~ Forall has_colon (split_dunder metric)
      /\ exists key, _key_from_metrics fields metric = Ok key
                     /\ length key = length fields).
Proof.
  unfold _key_from_metrics.
  destruct (last_plain_part (split_dunder metric))
    as [H|(kept & p & stripped & Hl & Hp & Hs)].
  - left. split; [exact H|]. unfold parse_metric_modifiers.
    rewrite pop_modifiers_exhausts by (apply Forall_rev; exact H). reflexivity.
  - right. split.
    + intros Hall. rewrite Hl in Hall. apply Forall_app in Hall as [_ Hall].
      inversion Hall as [|? ? Hc _]; subst. unfold has_colon in Hc. congruence.
    + rewrite (parse_decomposed metric kept p stripped Hl Hp Hs). simpl.
      eexists. split; [reflexivity|]. apply length_map.
Qed.

Lemma keyed_cases fields rows :
  (Exists (fun r => Forall has_colon (split_dunder (R.metric_name r))) rows
   /\ keyed fields rows = Raise IndexError)
  \/ (Forall (fun r => ~ Forall has_colon (split_dunder (R.metric_name r))) rows
      /\ exists ks, keyed fields rows = Ok ks /\ map snd ks = rows
                    /\ Forall (consistent fields) ks).
Proof.
  induction rows as [|r rows IH].
  - right. split; [constructor|]. exists []. repeat split; constructor.
  - simpl.
    destruct (key_from_metrics_cases fields (R.metric_name r))
      as [[Hbad He]|[Hgood (key & Hk & _)]].
    + left. split; [left; exact Hbad|]. rewrite He. reflexivity.
    + rewrite Hk. simpl. destruct IH as [[Hex He]|[Hall (ks & Hks & Hm & Hc)]].
      * left. split; [right; exact Hex|]. rewrite He. reflexivity.
      * right. split; [constructor; assumption|].
        exists ((key, r) :: ks). rewrite Hks. simpl. rewrite Hm.
        repeat split. constructor; [exact Hk | exact Hc].
Qed.

Lemma keyed_consistent fields ks :
  Forall (consistent fields) ks -> keyed fields (map snd ks) = Ok ks.
Proof.
  induction 1 as [|[k r] ks Hk _ IH]; [reflexivity|].
  simpl. unfold consistent in Hk. simpl in Hk. rewrite Hk. simpl.
  rewrite IH. reflexivity.
Qed.

Lemma has_key_consistent fields key ks :
  Forall (consistent fields) ks ->
  filter (has_key fields key) (map snd ks)
  = map snd (filter (fun kx => strings_eqb (fst kx) key) ks).
Proof.
  induction 1 as [|[k r] ks Hk _ IH]; [reflexivity|].
  simpl. unfold has_key at 1. unfold consistent in Hk. simpl in Hk.
  rewrite Hk. destruct (strings_eqb k key); simpl; rewrite IH; reflexivity.
Qed.

End SortingFacts.

(** ** The table: sorting, buckets, layout; the statistics *)

Module RenderMore.
Import PyStr PyDict Parser MetricDiff Sorting PyStrFacts ParserFacts
       SortingFacts MetricDiffFacts.
Import TableVerbosity.
Local Open Scope string_scope.

Lemma sorted_by_key_cases fields rows :
  (Exists (fun r => Forall has_colon (split_dunder (R.metric_name r))) rows
   /\ sorted_by_key fields rows = Raise IndexError)
  \/ (Forall (fun r => ~ Forall has_colon (split_dunder (R.metric_name r))) rows
      /\ exists ks,
           keyed fields rows = Ok ks /\ map snd ks = rows
           /\ Forall (consistent fields) ks
           /\ sorted_by_key fields rows
              = Ok (map snd (sorted_by keyed_lt ks))).
Proof.
  unfold sorted_by_key.
  destruct (keyed_cases fields rows) as [[Hex He]|[Hall (ks & Hks & Hm & Hc)]].
  - left. split; [exact Hex|]. rewrite He. reflexivity.
  - right. split; [exact Hall|]. exists ks. rewrite Hks. simpl.
    rewrite fold_insert_by_key. auto.
Qed.

Lemma keyed_lt_asym x y : keyed_lt x y = true -> keyed_lt y x = false.
Proof. apply key_lt_asym. Qed.

Lemma keyed_lt_negtrans x y z :
  keyed_lt x y = false -> keyed_lt y z = false -> keyed_lt x z = false.
Proof. apply key_lt_negtrans. Qed.

(** X5.  Sorting the rows loses and adds nothing: when it returns, the rows
    returned are a rearrangement of the rows given.  It raises exactly
    when the name of some row has a colon in every part, and then it
    raises [IndexError]. *)
Theorem sorted_rows_permutation fields rows :
  (forall rows', sorted_by_key fields rows = Ok rows' -> Permutation rows' rows)
  /\ (forall e, sorted_by_key fields rows = Raise e -> e = IndexError)
  /\ (sorted_by_key fields rows = Raise IndexError
      <-> Exists (fun r => Forall has_colon (split_dunder (R.metric_name r)))
                 rows).
Proof.
  destruct (sorted_by_key_cases fields rows)
    as [[Hex He]|[Hall (ks & Hks & Hm & Hc & Hs)]].
  - rewrite He. split; [congruence|]. split; [congruence|].
    split; [intros _; exact Hex | reflexivity].
  - rewrite Hs. split; [|split; [congruence|split; [congruence|]]].
    + intros rows' [= <-]. rewrite <- Hm. apply Permutation_map, sorted_by_perm.
    + intros Hex. exfalso. apply Exists_exists in Hex as (r & Hin & Hbad).
      rewrite Forall_forall in Hall. exact (Hall r Hin Hbad).
Qed.

Lemma sorted_rows_permutation_witness :
  sorted_by_key [""] [sample_row "b" false None false;
                      sample_row "a" false None false]
  = Ok [sample_row "a" false None false; sample_row "b" false None false]
  /\ Permutation [sample_row "a" false None false;
                  sample_row "b" false None false]
                 [sample_row "b" false None false;
                  sample_row "a" false None false].
Proof.
  split; [reflexivity|].
  apply (sorted_rows_permutation [""] [sample_row "b" false None false;
                                       sample_row "a" false None false]).
  reflexivity.
Defined.

(** X6.  The rows that sorting returns stand in ascending order of their
    keys: paired with the keys that [_key_from_metrics] gives them, no row
    is followed, at any distance, by a row of a lesser key. *)
Theorem sorted_rows_ascending fields rows rows' :
  sorted_by_key fields rows = Ok rows' ->
  exists ks,
    keyed fields rows' = Ok ks
    /\ StronglySorted (fun a b => key_lt (fst b) (fst a) = false) ks.
Proof.
  intros H.
  destruct (sorted_by_key_cases fields rows)
    as [[_ He]|[_ (ks & _ & _ & Hc & Hs)]]; [congruence|].
  rewrite Hs in H. injection H as <-.
  exists (sorted_by keyed_lt ks). split.
  - apply keyed_consistent.
    eapply Permutation_Forall; [symmetry; apply sorted_by_perm | exact Hc].
  - apply (sorted_by_sorted keyed_lt keyed_lt_asym keyed_lt_negtrans).
Qed.

Lemma sorted_rows_ascending_witness :
  exists ks,
    keyed ["k"] [sample_row "m__k:1" false None false;
                 sample_row "m__k:2" false None false] = Ok ks
    /\ StronglySorted (fun a b => key_lt (fst b) (fst a) = false) ks.
Proof.
  apply (sorted_rows_ascending ["k"] [sample_row "m__k:2" false None false;
                                      sample_row "m__k:1" false None false]).
  reflexivity.
Defined.

(** X7.  Sorting is stable: the rows of any one key come out in the order in
    which they went in. *)
Theorem sorted_rows_stable fields rows rows' key :
  sorted_by_key fields rows = Ok rows' ->
  filter (has_key fields key) rows' = filter (has_key fields key) rows.
Proof.
  intros H.
  destruct (sorted_by_key_cases fields rows)
    as [[_ He]|[_ (ks & _ & Hm & Hc & Hs)]]; [congruence|].
  rewrite Hs in H. injection H as <-. rewrite <- Hm.
  rewrite !has_key_consistent; [|exact Hc|].
  - f_equal.
    apply (sorted_by_stable keyed_lt keyed_lt_asym keyed_lt_negtrans).
    intros x w Hx Hw. apply strings_eqb_eq in Hx, Hw. unfold keyed_lt.
    rewrite Hx, Hw. apply key_lt_irrefl.
  - eapply Permutation_Forall; [symmetry; apply sorted_by_perm | exact Hc].
Qed.

Lemma sorted_rows_stable_witness :
  filter (has_key [""] ["m"])
    [sample_row "a" false None false; sample_row "m__k:2" true None false;
     sample_row "m__k:1" false None false]
  = filter (has_key [""] ["m"])
      [sample_row "m__k:2" true None false; sample_row "a" false None false;
       sample_row "m__k:1" false None false].
Proof.
  apply (sorted_rows_stable [""]
           [sample_row "m__k:2" true None false;
            sample_row "a" false None false;
            sample_row "m__k:1" false None false]).
  reflexivity.
Defined.



Lemma classify_fold rows b :
  fold_left classify rows b
  = {| changed := changed b ++ filter in_changed rows;
       worse := MetricDiff.worse b ++ filter in_worse rows;
       critical := MetricDiff.critical b ++ filter in_critical rows;
       remaining := remaining b ++ filter in_remaining rows |}.
Proof.
  revert b. induction rows as [|r rows IH]; intros [ch w c re].
  - simpl. rewrite !app_nil_r. reflexivity.
  - simpl fold_left. rewrite IH. unfold classify.
    unfold in_changed, in_worse, in_critical, in_remaining, is_worse. simpl.
    destruct (R.critical r), (R.better r) as [[|]|], (R.is_changed r); simpl;
      rewrite <- ?app_assoc; reflexivity.
Qed.

Lemma listed_differences_ordered self sort_by v :
  listed_differences self sort_by v
  = rows <- ordered_rows self sort_by ;;
    Ok (listed {| changed := filter in_changed rows;
                  worse := filter in_worse rows;
                  critical := filter in_critical rows;
                  remaining := filter in_remaining rows |} v).
Proof.
  unfold listed_differences, ordered_rows.
  destruct (match sort_by with
            | Some (f :: fs) => sorted_by_key (f :: fs) (differences self)
            | _ => Ok (differences self)
            end) as [rows|e]; [|reflexivity].
  simpl. rewrite classify_fold. reflexivity.
Qed.

(** X9.  The buckets are filters of the rows in their order, sorted or given:
    a critical row goes to the critical bucket whatever else holds of
    it; a row that is not critical and whose [better] is false goes to
    the worse bucket, changed or not; any other changed row goes to the
    changed bucket; the rest remains.  Each verbosity lists the buckets
    up to its own, in that sequence, and each bucket keeps the order of
    the rows. *)
Theorem listed_rows_are_filters self sort_by rows :
  ordered_rows self sort_by = Ok rows ->
  listed_differences self sort_by NONE = Ok []
  /\ listed_differences self sort_by CRITICAL = Ok (filter in_critical rows)
  /\ listed_differences self sort_by WORSE
     = Ok (filter in_critical rows ++ filter in_worse rows)%list
  /\ listed_differences self sort_by CHANGED
     = Ok (filter in_critical rows ++ filter in_worse rows
           ++ filter in_changed rows)%list
  /\ listed_differences self sort_by ALL
     = Ok (filter in_critical rows ++ filter in_worse rows
           ++ filter in_changed rows ++ filter in_remaining rows)%list.
Proof.
  intros H. rewrite !listed_differences_ordered, H. simpl bind.
  rewrite listed_none, listed_critical, listed_worse, listed_changed,
    listed_all. simpl. rewrite <- !app_assoc. repeat split.
Qed.

Lemma listed_rows_are_filters_witness :
  listed_differences
    {| differences := [sample_row "u" false None false;
                       sample_row "w" false (Some false) false;
                       sample_row "x" true (Some false) true] |} None WORSE
  = Ok [sample_row "x" true (Some false) true;
        sample_row "w" false (Some false) false].
Proof.
  apply (listed_rows_are_filters
           {| differences := [sample_row "u" false None false;
                              sample_row "w" false (Some false) false;
                              sample_row "x" true (Some false) true] |}
           None _ eq_refl).
Defined.

Lemma buckets_partition rows :
  Permutation (filter in_critical rows ++ filter in_worse rows
               ++ filter in_changed rows ++ filter in_remaining rows)%list
              rows.
Proof.
  induction rows as [|r rows IH]; [reflexivity|].
  unfold in_critical, in_worse, in_changed, in_remaining in *.
  simpl. destruct (R.critical r); simpl.
  - apply perm_skip, IH.
  - destruct (is_worse r); simpl.
    + rewrite <- Permutation_middle. apply perm_skip, IH.
    + destruct (R.is_changed r); simpl.
      * rewrite app_assoc, <- Permutation_middle, <- app_assoc.
        apply perm_skip, IH.
      * rewrite !app_assoc, <- Permutation_middle, <- !app_assoc.
        apply perm_skip, IH.
Qed.

(** X10.  At the verbosity [ALL] every result is listed exactly once: the rows
    listed are a rearrangement of the results, so the table has one line
    for each result. *)
Theorem all_lists_every_result self sort_by rows :
  listed_differences self sort_by ALL = Ok rows ->
  Permutation rows (differences self)
  /\ length rows = length (differences self).
Proof.
  intros H. rewrite listed_differences_ordered in H.
  destruct (ordered_rows self sort_by) as [ordered|e] eqn:E; [|discriminate H].
  simpl in H. rewrite listed_all in H. simpl in H. injection H as <-.
  assert (Permutation ordered (differences self)) as Hp.
  { unfold ordered_rows in E. destruct sort_by as [[|f fs]|];
      try (injection E as <-; reflexivity).
    destruct (sorted_by_key_cases (f :: fs) (differences self))
      as [[_ He]|[_ (ks & _ & Hm & _ & Hs)]]; [congruence|].
    rewrite Hs in E. injection E as <-. rewrite <- Hm.
    apply Permutation_map, sorted_by_perm. }
  assert (Permutation
            (((filter in_critical ordered ++ filter in_worse ordered)
              ++ filter in_changed ordered) ++ filter in_remaining ordered)%list
            (differences self)) as Hall.
  { rewrite <- !app_assoc. rewrite buckets_partition. exact Hp. }
  split; [exact Hall | apply Permutation_length, Hall].
Qed.

Lemma all_lists_every_result_witness :
  let self := {| differences := [sample_row "u" false None false;
                                 sample_row "x" true (Some false) true] |} in
  Permutation [sample_row "x" true (Some false) true;
               sample_row "u" false None false] (differences self).
Proof.
  intros self.
  apply (all_lists_every_result self None). reflexivity.
Defined.

End RenderMore.

Module StatsMore.
Import PyStr PyDict Parser MetricDiff Sorting PyStrFacts ParserFacts
       SortingFacts MetricDiffFacts RenderMore.
Import TableVerbosity.
Local Open Scope string_scope.

Lemma count_row_fold rows s0 :
  fold_left count_row rows s0
  = {| S.better := S.better s0 + length (filter counts_better rows);
       S.worse := S.worse s0 + length (filter counts_worse rows);
       S.critical := S.critical s0 + length (filter R.critical rows);
       S.unchanged := S.unchanged s0 + length (filter counts_unchanged rows) |}.
Proof.
  revert s0. induction rows as [|r rows IH]; intros [b w c u].
  - simpl. f_equal; lia.
  - simpl fold_left. rewrite IH. unfold count_row.
    unfold counts_better, counts_worse, counts_unchanged, is_worse. simpl.
    destruct (R.is_changed r), (R.better r) as [[|]|], (R.critical r); simpl;
      f_equal; lia.
Qed.

Lemma filter_length_permutation {A} (p : A -> bool) l l' :
  Permutation l l' -> length (filter p l) = length (filter p l').
Proof.
  induction 1 as [|x l l' _ IH|x y l|l l' l'' _ IH1 _ IH2]; simpl.
  - reflexivity.
  - destruct (p x); simpl; congruence.
  - destruct (p x), (p y); reflexivity.
  - congruence.
Qed.

(** X12.  What [stats] counts: [better] and [worse] count the changed results
    whose flag [better] is true, respectively false; [unchanged] counts
    the results that are not changed; [critical] counts the critical
    results, changed or not. *)
Theorem stats_counts_exactly self :
  S.better (stats self) = length (filter counts_better (differences self))
  /\ S.worse (stats self) = length (filter counts_worse (differences self))
  /\ S.unchanged (stats self)
     = length (filter counts_unchanged (differences self))
  /\ S.critical (stats self) = length (filter R.critical (differences self)).
Proof.
  unfold stats. rewrite count_row_fold. simpl. repeat split.
Qed.

(** X13.  The statistics do not depend on the order of the results, and those
    of two collections put together are the sums of the statistics of the
    two. *)
Theorem stats_compose a b :
  (Permutation (differences a) (differences b) -> stats a = stats b)
  /\ stats {| differences := differences a ++ differences b |}
     = {| S.better := S.better (stats a) + S.better (stats b);
          S.worse := S.worse (stats a) + S.worse (stats b);
          S.critical := S.critical (stats a) + S.critical (stats b);
          S.unchanged := S.unchanged (stats a) + S.unchanged (stats b) |}.
Proof.
  unfold stats. rewrite !count_row_fold. simpl. split.
  - intros Hp.
    rewrite !(filter_length_permutation _ _ _ Hp). reflexivity.
  - rewrite !filter_app, !length_app. reflexivity.
Qed.

Lemma stats_compose_witness :
  let a := {| differences := [sample_row "a" true (Some true) true;
                              sample_row "b" false None false] |} in
  let b := {| differences := [sample_row "b" false None false;
                              sample_row "a" true (Some true) true] |} in
  Permutation (differences a) (differences b) /\ stats a = stats b.
Proof.
  intros a b.
  assert (Permutation (differences a) (differences b)) as H by apply perm_swap.
  split; [exact H|]. apply (stats_compose a b). exact H.
Defined.

(** X14.  The table and the statistics agree: at the verbosity [CRITICAL] the
    table lists as many rows as [stats] counts critical results, sorted
    or not. *)
Theorem critical_rows_match_stats self sort_by rows :
  listed_differences self sort_by CRITICAL = Ok rows ->
  length rows = S.critical (stats self)
  /\ Forall (fun r => R.critical r = true) rows.
Proof.
  intros H. rewrite listed_differences_ordered in H.
  destruct (ordered_rows self sort_by) as [ordered|e] eqn:E; [|discriminate H].
  simpl in H. rewrite listed_critical in H. simpl in H. injection H as <-.
  assert (Permutation ordered (differences self)) as Hp.
  { unfold ordered_rows in E. destruct sort_by as [[|f fs]|];
      try (injection E as <-; reflexivity).
    destruct (sorted_by_key_cases (f :: fs) (differences self))
      as [[_ He]|[_ (ks & _ & Hm & _ & Hs)]]; [congruence|].
    rewrite Hs in E. injection E as <-. rewrite <- Hm.
    apply Permutation_map, sorted_by_perm. }
  split.
  - destruct (stats_counts (differences self) S.init) as [_ Hc].
    unfold stats. simpl in Hc. rewrite Hc.
    apply (filter_length_permutation _ _ _ Hp).
  - apply Forall_forall. intros r Hr. apply filter_In in Hr as [_ Hr]. exact Hr.
Qed.

Lemma critical_rows_match_stats_witness :
  let self := {| differences := [sample_row "u" false None false;
                                 sample_row "x" true (Some false) true] |} in
  length [sample_row "x" true (Some false) true] = S.critical (stats self).
Proof.
  intros self.
  apply (critical_rows_match_stats self None). reflexivity.
Defined.






End StatsMore.

(** ** The aggregator: what rolls up, what is left alone, what raises *)

Module AggregatorMore.
Import PyStr PyDict Parser Aggregator Names Rollup PyStrFacts PyDictFacts
       ParserFacts AggregatorFacts AggregatorFrame.
Local Open Scope string_scope.

Lemma intersects_spec a b :
  intersects a b = true <-> exists k, In k a /\ In k b.
Proof.
  unfold intersects. rewrite existsb_exists. split.
  - intros (k & Hk & Hb). apply existsb_exists in Hb as (k' & Hk' & E).
    apply String.eqb_eq in E. subst k'. eauto.
  - intros (k & Hk & Hb). exists k. split; [exact Hk|].
    apply existsb_exists. exists k. split; [exact Hb | apply String.eqb_refl].
Qed.

Lemma names_from_seq base done todo :
  map (fun j => build_name base (done ++ firstn j todo)%list)
      (seq 0 (length todo))
  = names_from base done todo.
Proof.
  revert done. induction todo as [|kv todo IH]; intros done; [reflexivity|].
  simpl. rewrite app_nil_r. f_equal.
  rewrite <- seq_shift, map_map, <- IH. apply map_ext.
  intros j. rewrite <- app_assoc. reflexivity.
Qed.

Lemma prefix_names_from base modifiers :
  prefix_names base modifiers = names_from base [] modifiers.
Proof. unfold prefix_names. rewrite <- names_from_seq. reflexivity. Qed.

Lemma names_from_longer base done todo k :
  In k (names_from base done todo) ->
  String.length base + weight done <= String.length k.
Proof.
  revert done. induction todo as [|[m v] todo IH]; intros done; simpl; [tauto|].
  intros [<-|H].
  - rewrite build_name_length. lia.
  - apply IH in H. rewrite weight_app in H. lia.
Qed.

Lemma names_from_fresh base done kv todo :
  ~ In (build_name base done) (names_from base (done ++ [kv])%list todo).
Proof.
  intros H. apply names_from_longer in H.
  rewrite build_name_length, weight_app in H. destruct kv as [m v].
  rewrite weight_cons in H. lia.
Qed.

Section WithValues.
Variable V : Type.
Variable truthy : V -> bool.
Implicit Types (agg : dict V) (rules : dict (registry_entry V)).

Lemma aggregate_item_resolve rules agg name value :
  aggregate_item V truthy rules agg name value
  = match parse_metric_modifiers name with
    | Raise e => Raise e
    | Ok (base, modifiers) =>
        if Nat.ltb (length modifiers) 1 then Ok agg
        else match resolve V rules base with
             | (dont, Some entry) =>
                 if intersects (keys modifiers) dont then Ok agg
                 else fold_prefixes V truthy entry value modifiers
                        (keys modifiers) base agg
             | (_, None) => Ok agg
             end
    end.
Proof.
  unfold aggregate_item, resolve.
  destruct (parse_metric_modifiers name) as [[base modifiers]|e];
    [|reflexivity].
  simpl. destruct (Nat.ltb (length modifiers) 1); [reflexivity|].
  destruct (get base rules) as [[a|m]|]; reflexivity.
Qed.

(** the inner loop writes once under each of its names, and nowhere
    else *)
Lemma fold_prefixes_get start f value base (todo done : dict string)
    agg agg' k :
  NoDup (keys (done ++ todo)%list) ->
  fold_prefixes V truthy (start, f) value (done ++ todo)%list (keys todo)
    (build_name base done) agg = Ok agg' ->
  get k agg'
  = if existsb (String.eqb k) (names_from base done todo)
    then Some (f [or_start V truthy (get k agg) start; value])
    else get k agg.
Proof.
  revert done agg. induction todo as [|[m v] todo IH]; intros done agg Hnd Hf.
  - simpl in *. congruence.
  - simpl in Hf.
    assert (item m (done ++ (m, v) :: todo)%list = Ok v) as Hitem.
    { unfold item. rewrite (get_in m v); [reflexivity | exact Hnd|].
      apply in_or_app. right. left. reflexivity. }
    rewrite Hitem in Hf. simpl in Hf.
    replace (done ++ (m, v) :: todo)%list
      with ((done ++ [(m, v)]) ++ todo)%list in Hf, Hnd
      by (rewrite <- app_assoc; reflexivity).
    pose proof (build_name_snoc base done m v) as Hsnoc. simpl in Hsnoc.
    rewrite <- Hsnoc in Hf.
    rewrite (IH _ _ Hnd Hf). simpl.
    destruct (String.eqb k (build_name base done)) eqn:E.
    + apply String.eqb_eq in E. subst k. simpl.
      assert (existsb (String.eqb (build_name base done))
                (names_from base (done ++ [(m, v)])%list todo) = false) as ->.
      { destruct (existsb _ _) eqn:Ex; [|reflexivity].
        apply existsb_exists in Ex as (k' & Hin & Ek).
        apply String.eqb_eq in Ek. subst k'.
        exfalso. exact (names_from_fresh _ _ _ _ Hin). }
      apply get_set_eq.
    + apply String.eqb_neq in E. simpl.
      rewrite get_set_neq by congruence. reflexivity.
Qed.

Lemma aggregate_item_get rules agg name value agg' k :
  aggregate_item V truthy rules agg name value = Ok agg' ->
  get k agg'
  = if rolls_into V rules k name
    then match item_rule V rules name with
         | Some (start, f) =>
             Some (f [or_start V truthy (get k agg) start; value])
         | None => get k agg
         end
    else get k agg.
Proof.
  rewrite aggregate_item_resolve. unfold rolls_into, item_names, item_rule.
  destruct (parse_metric_modifiers name) as [[base modifiers]|e] eqn:Hp;
    [|discriminate].
  destruct (Nat.ltb (length modifiers) 1); [intros [= <-]; reflexivity|].
  destruct (resolve V rules base) as [dont [[start f]|]];
    [|intros [= <-]; reflexivity].
  destruct (intersects (keys modifiers) dont); [intros [= <-]; reflexivity|].
  intros Hf. simpl snd. rewrite prefix_names_from.
  apply (fold_prefixes_get start f value base modifiers [] agg agg' k).
  - exact (parse_ok_NoDup _ _ _ Hp).
  - exact Hf.
Qed.

Lemma aggregate_items_get rules items start f k :
  Forall (fun item => rolls_into V rules k (fst item) = true ->
                      item_rule V rules (fst item) = Some (start, f)) items ->
  forall agg agg',
    aggregate_items V truthy rules items agg = Ok agg' ->
    get k agg' = folded V truthy start f (get k agg) (rolled V rules k items).
Proof.
  induction 1 as [|[name value] items Hrule _ IH]; intros agg agg' H.
  - simpl in *. congruence.
  - simpl in H.
    destruct (aggregate_item V truthy rules agg name value) as [agg1|e] eqn:E;
      [|discriminate H].
    simpl in H. rewrite (IH _ _ H). unfold rolled, folded. simpl.
    rewrite (aggregate_item_get _ _ _ _ _ k E). simpl in Hrule.
    destruct (rolls_into V rules k name); [|reflexivity].
    rewrite (Hrule eq_refl). reflexivity.
Qed.

Lemma folded_some start f w values :
  (forall w x, truthy w = false -> f [start; x] = f [w; x]) ->
  folded V truthy start f (Some w) values
  = Some (fold_left (fun acc v => f [acc; v]) values w).
Proof.
  intros Hf. revert w. induction values as [|v values IH]; intros w;
    [reflexivity|].
  unfold folded in *. simpl. rewrite IH. f_equal. f_equal.
  destruct (truthy w) eqn:E; [reflexivity | apply Hf, E].
Qed.

Lemma folded_none start f values :
  (forall w x, truthy w = false -> f [start; x] = f [w; x]) ->
  folded V truthy start f None values
  = match values with
    | [] => None
    | _ => Some (fold_values V start f values)
    end.
Proof.
  intros Hf. destruct values as [|v values]; [reflexivity|].
  unfold fold_values. simpl. apply (folded_some start f _ values Hf).
Qed.

End WithValues.

Section Rollup.
Variable V : Type.
Variable truthy : V -> bool.
Variable Metric_by_name : dict (registry_entry V).

(** X15.  What is stored under a name.  Let every item that writes under [k]
    have the rule [(start, f)].  Then the snapshot holds under [k] what
    lines 108 and 109 make of the values of those items, taken in the
    order of the input: the first is folded into [start], every later one
    into the accumulator stored, or into [start] again when that
    accumulator is falsy; a name under which no item writes keeps what the
    input has there.  When the reducer folds a falsy accumulator like
    [start], what is stored is the plain left fold of the reducer over
    those values from [start]. *)
Theorem rollup_is_fold rules input out k start f :
  Forall (fun item => rolls_into V rules k (fst item) = true ->
                      item_rule V rules (fst item) = Some (start, f)) input ->
  aggregate_metrics V truthy Metric_by_name input (Some rules) = Ok out ->
  get k out
  = match folded V truthy start f None (rolled V rules k input) with
    | Some v => Some v
    | None => get k input
    end
  /\ ((forall w x, truthy w = false -> f [start; x] = f [w; x]) ->
      get k out
      = match rolled V rules k input with
        | [] => get k input
        | values => Some (fold_values V start f values)
        end).
Proof.
  intros Hrule H. unfold aggregate_metrics in H.
  destruct (aggregate_items V truthy rules input []) as [agg|e] eqn:E;
    [|discriminate H].
  simpl in H. injection H as <-.
  assert (get k (update input agg)
          = match folded V truthy start f None (rolled V rules k input) with
            | Some v => Some v
            | None => get k input
            end) as Hget.
  { rewrite get_update
      by (eapply aggregate_items_NoDup; [exact E | constructor]).
    rewrite (aggregate_items_get V truthy rules input start f k Hrule [] agg E).
    reflexivity. }
  split; [exact Hget|].
  intros Hf. rewrite Hget, (folded_none V truthy start f _ Hf).
  destruct (rolled V rules k input); reflexivity.
Qed.

(** X16.  An input all of whose items have nothing to roll up comes back as it
    is: so it is for names without modifiers, for bases that the registry
    does not know or knows without a rule, and for items with a modifier
    key that is never aggregated over. *)
Theorem nothing_to_roll_returns_input rules (input : dict V) :
  Forall (fun item => nothing_to_roll V rules (fst item)) input ->
  aggregate_metrics V truthy Metric_by_name input (Some rules) = Ok input.
Proof.
  intros H. unfold aggregate_metrics.
  assert (forall agg, aggregate_items V truthy rules input agg = Ok agg) as ->.
  { induction H as [|[name value] items Hn _ IH]; intros agg; [reflexivity|].
    simpl. assert (aggregate_item V truthy rules agg name value = Ok agg) as ->.
    { rewrite aggregate_item_resolve.
      destruct Hn as (base & modifiers & Hp & Hcase). simpl in Hp.
      rewrite Hp. destruct Hcase as [->|[Hnone|(k & Hk & Hd)]].
      - reflexivity.
      - destruct (Nat.ltb (length modifiers) 1); [reflexivity|].
        destruct (resolve V rules base) as [dont [entry|]];
          [discriminate Hnone | reflexivity].
      - destruct (Nat.ltb (length modifiers) 1); [reflexivity|].
        destruct (resolve V rules base) as [dont [entry|]]; [|reflexivity].
        simpl in Hd.
        assert (intersects (keys modifiers) dont = true) as ->
            by (apply intersects_spec; eauto).
        reflexivity. }
    simpl. apply IH. }
  reflexivity.
Qed.


Lemma keys_update_extends (d e : dict V) :
  exists extra,
    keys (update d e) = (keys d ++ extra)%list
    /\ Forall (fun k => ~ In k (keys d) /\ In k (keys e)) extra.
Proof.
  unfold update. revert d. induction e as [|[k v] e IH]; intros d.
  - exists []. simpl. rewrite app_nil_r. split; [reflexivity | constructor].
  - simpl. destruct (IH (set k v d)) as (extra & Hkeys & Hextra).
    rewrite Hkeys, ParserMore.keys_set_order.
    destruct (in_dec string_dec k (keys d)) as [Hin|Hin].
    + exists extra. split; [reflexivity|].
      eapply Forall_impl; [|exact Hextra]. intros k' [H1 H2]. split.
      * intros H. apply H1. apply keys_set. right. exact H.
      * right. exact H2.
    + exists (k :: extra). rewrite <- app_assoc. split; [reflexivity|].
      constructor; [split; [exact Hin | left; reflexivity]|].
      eapply Forall_impl; [|exact Hextra]. intros k' [H1 H2]. split.
      * intros H. apply H1. apply keys_set. right. exact H.
      * right. exact H2.
Qed.

(** X18.  The snapshot returned lists the names of the input first, in the
    order of the input; the names that follow are names of aggregates
    that the input does not have.  No name of the input is lost. *)
Theorem output_keeps_input_order rules (input out : dict V) :
  aggregate_metrics V truthy Metric_by_name input (Some rules) = Ok out ->
  exists extra,
    keys out = (keys input ++ extra)%list
    /\ Forall (fun k => ~ In k (keys input)) extra
    /\ length input <= length out.
Proof.
  unfold aggregate_metrics.
  destruct (aggregate_items V truthy rules input []) as [agg|e];
    [|discriminate].
  simpl. intros [= <-].
  destruct (keys_update_extends input agg) as (extra & Hkeys & Hextra).
  exists extra. split; [exact Hkeys|]. split.
  - eapply Forall_impl; [|exact Hextra]. intros k [H _]. exact H.
  - apply (f_equal (@length _)) in Hkeys. unfold keys in Hkeys.
    rewrite length_app, !length_map in Hkeys. lia.
Qed.

(** X19.  The snapshot does not depend on the order of the input when the
    registry holds one rule [(start, f)] whose reducer folds a falsy
    accumulator like [start] and folds two values in either order alike:
    for two inputs with the same items, the names being pairwise
    distinct, the snapshots answer every lookup alike. *)
Theorem order_independent start f rules (input input' : dict V) out :
  (forall w x, truthy w = false -> f [start; x] = f [w; x]) ->
  (forall a x y, f [f [a; x]; y] = f [f [a; y]; x]) ->
  uniform V start f rules ->
  NoDup (keys input) ->
  Permutation input input' ->
  aggregate_metrics V truthy Metric_by_name input (Some rules) = Ok out ->
  exists out',
    aggregate_metrics V truthy Metric_by_name input' (Some rules) = Ok out'
    /\ forall k, get k out = get k out'.
Proof.
  intros Hfalsy Hswap Hu Hnd Hp H.
  exact (AggregatorOrder.aggregate_metrics_permutation V truthy start f
           Hfalsy Hswap rules Hu Metric_by_name input input' out Hnd Hp H).
Qed.

End Rollup.

Lemma order_independent_witness :
  exists out',
    aggregate_metrics Z int_truthy [] [("m__a:2", 5%Z); ("m__a:1", 0%Z)]
      (Some sum_rules) = Ok out'
    /\ forall k,
         get k [("m__a:1", 0%Z); ("m__a:2", 5%Z); ("m", 5%Z)] = get k out'.
Proof.
  apply (order_independent Z int_truthy [] 0%Z int_sum sum_rules
           [("m__a:1", 0%Z); ("m__a:2", 5%Z)]).
  - apply AggregatorOrder.int_sum_falsy.
  - apply AggregatorOrder.int_sum_swap.
  - apply AggregatorOrder.sum_rules_uniform.
  - repeat constructor; simpl; intuition discriminate.
  - apply perm_swap.
  - reflexivity.
Defined.

Lemma sum_rule_of_m name k :
  rolls_into Z sum_rules k name = true ->
  item_rule Z sum_rules name = Some (0%Z, int_sum).
Proof.
  unfold rolls_into, item_names, item_rule, resolve, sum_rules.
  destruct (parse_metric_modifiers name) as [[base modifiers]|e];
    [|discriminate].
  destruct (Nat.ltb (length modifiers) 1); [discriminate|].
  simpl get. destruct (String.eqb base "m"); [reflexivity | discriminate].
Qed.

Lemma rollup_is_fold_witness :
  let input := [("m__a:1__b:1", 2%Z); ("m__a:1__b:2", 0%Z);
                ("m__a:2__b:1", 5%Z); ("n__a:1", 7%Z)] in
  aggregate_metrics Z int_truthy [] input (Some sum_rules)
  = Ok (input ++ [("m", 7%Z); ("m__a:1", 2%Z); ("m__a:2", 5%Z)])%list
  /\ get "m__a:1" (input ++ [("m", 7%Z); ("m__a:1", 2%Z); ("m__a:2", 5%Z)])%list
     = Some (fold_values Z 0%Z int_sum [2%Z; 0%Z]).
Proof.
  intros input. split; [reflexivity|].
  destruct (rollup_is_fold Z int_truthy [] sum_rules input
              (input ++ [("m", 7%Z); ("m__a:1", 2%Z); ("m__a:2", 5%Z)])%list
              "m__a:1" 0%Z int_sum) as [_ H].
  - apply Forall_forall. intros item _. apply sum_rule_of_m.
  - reflexivity.
  - rewrite H; [reflexivity|]. apply AggregatorOrder.int_sum_falsy.
Defined.

Lemma nothing_to_roll_returns_input_witness :
  let input := [("m", Fin 1); ("n__a:1", Fin 2)] in
  Forall (fun item => nothing_to_roll num min_rules (fst item)) input
  /\ aggregate_metrics num num_truthy [] input (Some min_rules) = Ok input.
Proof.
  intros input.
  assert (Forall (fun item => nothing_to_roll num min_rules (fst item)) input)
    as H.
  { constructor; [|constructor; [|constructor]].
    - exists "m", []. split; [reflexivity | left; reflexivity].
    - exists "n", [("a", "1")]. split; [reflexivity | right; left; reflexivity]. }
  split; [exact H|].
  apply (nothing_to_roll_returns_input num num_truthy [] min_rules input H).
Defined.


Lemma output_keeps_input_order_witness :
  exists extra,
    keys [("m__a:1", Fin 3); ("z", Fin 1); ("m", Fin 3)]
    = (keys [("m__a:1", Fin 3); ("z", Fin 1)] ++ extra)%list
    /\ Forall (fun k => ~ In k (keys [("m__a:1", Fin 3); ("z", Fin 1)])) extra
    /\ length [("m__a:1", Fin 3); ("z", Fin 1)]
       <= length [("m__a:1", Fin 3); ("z", Fin 1); ("m", Fin 3)].
Proof.
  apply (output_keeps_input_order num num_truthy [] min_rules
           [("m__a:1", Fin 3); ("z", Fin 1)]).
  reflexivity.
Defined.

End AggregatorMore.

(** ** The diff of two snapshots *)

Module FromMetricsFacts.
Import PyStr PyDict Parser MetricDiff FromMetrics PyStrFacts ParserFacts.
Local Open Scope string_scope.

Section WithCollaborators.
Variable V : Type.
Variable M : Type.
Variable X : Type.
Variable type_differs : V -> V -> bool.
Variable convert : V -> V -> outcome X V.
Variable Metric_by_name : dict M.
Variable compare : M -> V -> V -> Z -> dict string -> outcome X R.t.

Local Abbreviation generate' :=
  (generate V M X type_differs convert Metric_by_name compare).
Local Abbreviation compare_one' :=
  (compare_one V M X type_differs convert Metric_by_name compare).
Local Abbreviation from_metrics' :=
  (from_metrics V M X type_differs convert Metric_by_name compare).

Lemma generate_absent g n sf metrics :
  Forall (fun m => get m g = None) metrics ->
  generate' g n sf metrics = Returned [].
Proof.
  induction 1 as [|m metrics Hm _ IH]; [reflexivity|].
  simpl. unfold compare_one. rewrite Hm, IH. reflexivity.
Qed.

(** X20.  A metric that the gold snapshot does not have is passed over before
    anything else is done with it: its name is not parsed, its value is
    not read, no collaborator is called.  So an empty gold snapshot gives
    an empty diff, whatever the new snapshot and the filter are, and so
    do two snapshots without a common name among those that the filter
    lets through. *)
Theorem no_common_metric_no_result new sf select :
  from_metrics' [] new sf select = Returned {| differences := [] |}
  /\ forall gold,
       Forall (fun m => get m gold = None) (select (sorted_keys V new)) ->
       from_metrics' gold new sf select = Returned {| differences := [] |}.
Proof.
  assert (forall gold,
             Forall (fun m => get m gold = None) (select (sorted_keys V new)) ->
             from_metrics' gold new sf select
             = Returned {| differences := [] |}) as H.
  { intros gold Hg. unfold from_metrics.
    rewrite generate_absent by exact Hg. reflexivity. }
  split; [|exact H].
  apply H. apply Forall_forall. intros m _. reflexivity.
Qed.

Lemma compare_one_returned g n sf m yielded :
  compare_one' g n sf m = Returned yielded ->
  (in_snapshot V g m = false /\ yielded = None)
  \/ (in_snapshot V g m = true
      /\ ~ Forall has_colon (split_dunder m)
      /\ in_snapshot V n m = true
      /\ (forall r, yielded = Some r ->
            exists base modifiers,
              parse_metric_modifiers m = Ok (base, modifiers)
              /\ get base Metric_by_name <> None)).
Proof.
  unfold compare_one, in_snapshot, subscript.
  destruct (get m g) as [gv|] eqn:Eg; [|intros [= <-]; left; auto].
  destruct (parse_metric_modifiers m) as [[base modifiers]|e] eqn:Ep;
    [|discriminate].
  destruct (get m n) as [nv|]; [|discriminate].
  intros H. right. split; [reflexivity|]. split; [|split; [reflexivity|]].
  - intros Hall.
    assert (exists e, parse_metric_modifiers m = Raise e) as [e He]
        by (apply parse_raises_iff; exact Hall).
    congruence.
  - intros r ->. exists base, modifiers. split; [reflexivity|].
    destruct (if type_differs gv nv then convert nv gv else Returned gv);
      [|discriminate H].
    destruct (get base Metric_by_name); [discriminate | discriminate H].
Qed.

(** X21.  When [from_metrics] returns, every name that the filter let through
    and that the gold snapshot has is a name that parses and that the new
    snapshot has too; at most one result is made for each such name, and
    none for the others. *)
Theorem from_metrics_returned gold new sf select d :
  from_metrics' gold new sf select = Returned d ->
  Forall (fun m => in_snapshot V gold m = true ->
                   ~ Forall has_colon (split_dunder m)
                   /\ in_snapshot V new m = true)
         (select (sorted_keys V new))
  /\ length (differences d)
     <= length (filter (in_snapshot V gold) (select (sorted_keys V new))).
Proof.
  unfold from_metrics.
  destruct (generate' gold new sf (select (sorted_keys V new)))
    as [results|e] eqn:E; [|discriminate].
  intros [= <-]. simpl. revert results E.
  induction (select (sorted_keys V new)) as [|m metrics IH]; intros results E.
  - simpl in E. injection E as <-. split; [constructor | simpl; lia].
  - simpl in E.
    destruct (compare_one' gold new sf m) as [yielded|e] eqn:E1;
      [|discriminate E].
    destruct (generate' gold new sf metrics) as [rest|e] eqn:E2;
      [|discriminate E].
    injection E as <-. destruct (IH rest eq_refl) as [IH1 IH2].
    apply compare_one_returned in E1
      as [[Hg ->]|(Hg & Hp & Hn & _)]; simpl; rewrite Hg.
    + split; [|exact IH2]. constructor; [congruence | exact IH1].
    + split; [constructor; [auto | exact IH1]|].
      destruct yielded; simpl; lia.
Qed.

(** X22.  The filter is offered the names of the new snapshot in ascending
    order, each as often as the snapshot has it: [sorted(n.keys())] is a
    rearrangement of the names in which no name is followed, at any
    distance, by a lesser one. *)
Theorem sorted_keys_ascending (n : dict V) :
  Permutation (sorted_keys V n) (keys n)
  /\ StronglySorted (fun a b => str_lt b a = false) (sorted_keys V n).
Proof.
  unfold sorted_keys. split.
  - apply SortingFacts.sorted_by_perm.
  - apply (SortingFacts.sorted_by_sorted str_lt SortingFacts.str_lt_asym
             SortingFacts.str_lt_negtrans).
Qed.

End WithCollaborators.

Lemma no_common_metric_no_result_witness :
  from_metrics Z unit unit (fun _ _ => false) (fun v _ => Returned v) []
    (fun _ _ _ _ _ => Thrown (External tt))
    [("a", 1%Z)] [("k:1", 2%Z)] 3%Z (fun l => l)
  = Returned {| differences := [] |}.
Proof.
  apply (no_common_metric_no_result Z unit unit). repeat constructor.
Defined.

Lemma from_metrics_returned_witness :
  let d := {| differences := [sample_row "m" false None false] |} in
  length (differences d)
  <= length (filter (in_snapshot Z [("m", 1%Z); ("z", 0%Z)])
               ((fun l => l) (sorted_keys Z [("n", 5%Z); ("m", 2%Z)]))).
Proof.
  intros d.
  apply (from_metrics_returned Z unit unit (fun _ _ => false)
           (fun v _ => Returned v) [("m", tt)]
           (fun _ _ _ _ _ => Returned (sample_row "m" false None false))
           [("m", 1%Z); ("z", 0%Z)] [("n", 5%Z); ("m", 2%Z)] 3%Z (fun l => l) d).
  reflexivity.
Defined.

End FromMetricsFacts.
